(** * AppSyncApi: key-driven binding of data sources and resolvers

    A shallow embedding of [packages/resources/src/AppSyncApi.ts].

    - JavaScript strings are sequences of UTF-16 code units ([jsstring]).
    - The objects used as dictionaries ([functionsByDsKey],
      [dataSourcesByDsKey], [dsKeysByResKey], [resolversByResKey]) are finite
      maps of their own properties; reading [obj[key]] goes on to
      [Object.prototype] when the object has no such property of its own
      ([getProperty]), and [obj[key] = value] makes or replaces an own
      property, as it does for every key but ["__proto__"].
    - Every method runs in a state-and-exception monad: a thrown [Error]
      keeps the mutations made before the throw, as in JavaScript.
    - The CDK and the [Function] construct are external: their calls are the
      fields of a [Provider], each of which may throw. *)

From Stdlib Require Import String Ascii NArith ZArith List Permutation.
From stdpp Require Import gmap list.

Local Open Scope N_scope.

(** ** JavaScript strings *)

(** A string is the list of its UTF-16 code units. *)
Abbreviation jsstring := (list N).

(** The code units of an ASCII literal. *)
Fixpoint js (s : string) : jsstring :=
  match s with
  | EmptyString => []
  | String c s' => N_of_ascii c :: js s'
  end.

Arguments js s%_string.

(** The characters matched by the regular expression class [\s]:
    the ECMAScript WhiteSpace and LineTerminator code points. *)
Definition isWhiteSpace (c : N) : bool :=
  (9 <=? c) && (c <=? 13)
  || (c =? 32) || (c =? 160) || (c =? 5760)
  || (8192 <=? c) && (c <=? 8202)
  || (c =? 8232) || (c =? 8233) || (c =? 8239) || (c =? 8287)
  || (c =? 12288) || (c =? 65279).

(** Prepend a code unit to the first token of a token list. *)
Definition pushHead (c : N) (tokens : list jsstring) : list jsstring :=
  match tokens with
  | [] => [[c]]
  | t :: ts => (c :: t) :: ts
  end.

(** [s.split(/\s+/)]: the tokens between the maximal runs of white space.
    [inRun] tells that the previous code unit belongs to the separator being
    matched.  A run at the start or at the end of the string leaves an empty
    token there; the empty string gives one empty token. *)
Fixpoint splitWhiteSpace (inRun : bool) (s : jsstring) : list jsstring :=
  match s with
  | [] => [[]]
  | c :: s' =>
      if isWhiteSpace c then
        if inRun then splitWhiteSpace true s'
        else [] :: splitWhiteSpace true s'
      else pushHead c (splitWhiteSpace false s')
  end.

(** [s.split(sep)] for a separator of one code unit. *)
Fixpoint split (sep : N) (s : jsstring) : list jsstring :=
  match s with
  | [] => [[]]
  | c :: s' =>
      if c =? sep then [] :: split sep s'
      else pushHead c (split sep s')
  end.

(** [tokens.join(sep)]. *)
Fixpoint join (sep : jsstring) (tokens : list jsstring) : jsstring :=
  match tokens with
  | [] => []
  | [t] => t
  | t :: ts => t ++ sep ++ join sep ts
  end.

(** [s.indexOf(c)] for a one-unit needle: the first position, or [-1]. *)
Fixpoint indexOf (c : N) (s : jsstring) : Z :=
  match s with
  | [] => (-1)%Z
  | x :: s' =>
      if x =? c then 0%Z
      else let i := indexOf c s' in
           if (i =? -1)%Z then (-1)%Z else (i + 1)%Z
  end.

Definition SPACE : N := 32.
Definition DOT : N := 46.
Definition UNDERSCORE : N := 95.

(** ** Pure helpers of the construct *)

(** [normalizeResolverKey]: [resolverKey.split(/\s+/).join(" ")]. *)
Definition normalizeResolverKey (resolverKey : jsstring) : jsstring :=
  join [SPACE] (splitWhiteSpace false resolverKey).

(** [buildDataSourceKey]: [`LambdaDS_${typeName}_${fieldName}`]. *)
Definition buildDataSourceKey (typeName fieldName : jsstring) : jsstring :=
  js "LambdaDS_" ++ typeName ++ js "_" ++ fieldName.

(** The normalizer as the specification words it: split on runs of white
    space, rejoin with single spaces, and trim both ends. *)
Fixpoint trimStart (s : jsstring) : jsstring :=
  match s with
  | c :: s' => if isWhiteSpace c then trimStart s' else s
  | [] => []
  end.

Definition trim (s : jsstring) : jsstring :=
  rev (trimStart (rev (trimStart s))).

Definition normalize_spec (key : jsstring) : jsstring :=
  trim (join [SPACE] (splitWhiteSpace false key)).

(** ** External objects

    Constructs and descriptors that this file only passes around are
    represented by their object identity. *)

Abbreviation Scope := nat.            (* a [Construct] used as scope *)
Abbreviation Fn := nat.               (* a [Function] construct *)
Abbreviation FunctionProps := nat.    (* a [FunctionProps] object *)
Abbreviation Permissions := nat.      (* a [Permissions] descriptor *)
Abbreviation CdkTable := nat.         (* [dynamodb.Table] *)
Abbreviation Cluster := nat.          (* [rds.IServerlessCluster] *)
Abbreviation Secret := nat.           (* [secretsmanager.ISecret] *)
Abbreviation ResolverCdkProps := nat. (* the [cdk.resolver] overrides *)
Abbreviation DataSource := nat.       (* [appsync.BaseDataSource] *)
Abbreviation Resolver := nat.         (* [appsync.Resolver] *)
Abbreviation Template := nat.         (* [appsync.MappingTemplate] *)
Abbreviation ExtError := jsstring.    (* an error thrown by an external call *)

(** ** Reading a property *)

(** What [obj[key]] gives on one of the dictionaries, which are created as
    [{}]: the own property, or the property of that name inherited from
    [Object.prototype], or [undefined]. *)
Inductive JsValue (A : Type) : Type :=
| Undefined
| Own (a : A)
| Inherited (name : jsstring).
Arguments Undefined {A}.
Arguments Own {A} a.
Arguments Inherited {A} name.

(** The names of the properties of [Object.prototype]. *)
Definition objectPrototypeNames : list jsstring :=
  [js "constructor"; js "__defineGetter__"; js "__defineSetter__";
   js "hasOwnProperty"; js "__lookupGetter__"; js "__lookupSetter__";
   js "isPrototypeOf"; js "propertyIsEnumerable"; js "toString";
   js "valueOf"; js "__proto__"; js "toLocaleString"].

(** [obj[key]] for an object with the own properties [m]. *)
Definition getProperty {A} (m : gmap jsstring A) (key : jsstring) : JsValue A :=
  match m !! key with
  | Some a => Own a
  | None =>
      if bool_decide (key ∈ objectPrototypeNames) then Inherited key
      else Undefined
  end.

(** An inherited property read as a string, as Node prints it: the
    functions by their source, [__proto__], which is [Object.prototype], as
    an object. *)
Definition inheritedToString (name : jsstring) : jsstring :=
  if bool_decide (name = js "__proto__") then js "[object Object]"
  else js "function "
       ++ (if bool_decide (name = js "constructor") then js "Object" else name)
       ++ js "() { [native code] }".

(** ** Interfaces *)

(** [FunctionDefinition = string | Fn | FunctionProps]. *)
Inductive FunctionDefinition : Type :=
| FDHandler (handler : jsstring)
| FDFn (fn : Fn)
| FDProps (props : FunctionProps).

(** The [Table] construct, read through [.cdk.table]. *)
Record Table : Type := { table_cdk_table : CdkTable }.

(** The [RDS] construct, read through [.cdk.cluster], [.cdk.cluster.secret]
    and [.defaultDatabaseName]. *)
Record RDS : Type := {
  rds_cdk_cluster : Cluster;
  rds_cdk_cluster_secret : option Secret;
  rds_defaultDatabaseName : jsstring
}.

(** An object given as a data source: the fields of the four
    [AppSyncApi*DataSourceProps] interfaces, each of them optional in the
    object that arrives.  The [cdk.dataSource] fields are flattened. *)
Record DataSourceProps : Type := {
  ds_name : option jsstring;
  ds_description : option jsstring;
  ds_function : option FunctionDefinition;
  ds_table : option Table;
  ds_cdk_table : option CdkTable;
  ds_rds : option RDS;
  ds_databaseName : option jsstring;
  ds_cdk_serverlessCluster : option Cluster;
  ds_cdk_secretStore : option Secret;
  ds_cdk_databaseName : option jsstring;
  ds_endpoint : option jsstring
}.

(** The value of an entry of [dataSources]. *)
Inductive DataSourceValue : Type :=
| DSInline (d : FunctionDefinition)
| DSProps (p : DataSourceProps).

(** [MappingTemplate = MappingTemplateFile | MappingTemplateInline], as the
    object that arrives: either field may be there or not. *)
Record MappingTemplate : Type := {
  file : option jsstring;
  inline : option jsstring
}.

(** [AppSyncApiResolverProps]. *)
Record AppSyncApiResolverProps : Type := {
  res_dataSource : option jsstring;
  res_function : option FunctionDefinition;
  res_requestMapping : option MappingTemplate;
  res_responseMapping : option MappingTemplate;
  res_cdk_resolver : option ResolverCdkProps
}.

(** The value of an entry of [resolvers]:
    [FunctionInlineDefinition | AppSyncApiResolverProps]. *)
Inductive ResolverValue : Type :=
| RVInline (d : FunctionDefinition)
| RVProps (r : AppSyncApiResolverProps).

(** The [definition] argument of [Fn.fromDefinition]: a function definition,
    or the props object itself where the code casts it to
    [FunctionInlineDefinition] in its last branch. *)
Inductive InlineArg : Type :=
| ArgDefinition (d : FunctionDefinition)
| ArgDataSourceProps (p : DataSourceProps)
| ArgResolverProps (r : AppSyncApiResolverProps).

(** The options object of [add*DataSource]. *)
Record DsOptions : Type := {
  opt_name : option jsstring;
  opt_description : option jsstring
}.

(** The argument of [graphqlApi.createResolver]. *)
Record ResolverArgs : Type := {
  arg_dataSource : JsValue DataSource;
  arg_typeName : jsstring;
  arg_fieldName : jsstring;
  arg_requestMappingTemplate : option Template;
  arg_responseMappingTemplate : option Template;
  arg_cdk_resolver : option ResolverCdkProps
}.

(** The part of [AppSyncApiProps] read after [createGraphApi]; an object is
    the list of its entries in the order of [Object.keys]. *)
Record AppSyncApiProps : Type := {
  props_dataSources : option (list (jsstring * DataSourceValue));
  props_resolvers : option (list (jsstring * ResolverValue));
  props_defaults_function : option FunctionProps
}.

(** ** Errors *)

Inductive Error : Type :=
| InvalidResolver (resKey : jsstring)
    (* `Invalid resolver ${resKey}` *)
| InvalidField (resKey : jsstring)
    (* `Invalid field defined for "${resKey}"` *)
| DataSourceDoesNotExist (resKey resValue : jsstring)
    (* `Failed to create resolver "${resKey}". Data source "${resValue}" does not exist.` *)
| FunctionDoesNotExist (key : jsstring)
    (* `Failed to attach permissions. Function does not exist for key "${key}".` *)
| TypeError (message : jsstring)
    (* thrown by the engine: `fn.attachPermissions is not a function` *)
| External (e : ExtError).

(** The names the specification gives to the errors of this file. *)
Definition isInvalidResolverKey (e : Error) : bool :=
  match e with InvalidResolver _ | InvalidField _ => true | _ => false end.

Definition isUnknownDataSource (e : Error) : bool :=
  match e with DataSourceDoesNotExist _ _ => true | _ => false end.

(** How a call ends. *)
Inductive Completion (A : Type) : Type :=
| Normal (a : A)
| Throw (e : Error).
Arguments Normal {A} a.
Arguments Throw {A} e.

(** ** The external world *)

(** An external call reads and changes the state of the outside world (the
    construct tree, the file system) and either returns or throws. *)
Definition Ext (World A : Type) : Type := World -> (ExtError + A) * World.

(** The calls this file makes into the CDK and into [Function.ts]:
    [Fn.fromDefinition(scope, id, definition, inheritedProps, message)],
    the four [graphqlApi.add*DataSource], [graphqlApi.createResolver], and
    [appsync.MappingTemplate.fromFile] / [fromString]. *)
Record Provider (World : Type) : Type := {
  fromDefinition :
    Scope -> jsstring -> InlineArg -> option FunctionProps -> jsstring ->
    Ext World Fn;
  addLambdaDataSource :
    jsstring -> Fn -> option DsOptions -> Ext World DataSource;
  addDynamoDbDataSource :
    jsstring -> CdkTable -> DsOptions -> Ext World DataSource;
  addRdsDataSource :
    jsstring -> Cluster -> option Secret -> option jsstring -> DsOptions ->
    Ext World DataSource;
  addHttpDataSource :
    jsstring -> jsstring -> DsOptions -> Ext World DataSource;
  createResolver : ResolverArgs -> Ext World Resolver;
  fromFile : jsstring -> Ext World Template;
  fromString : option jsstring -> Ext World Template
}.
Arguments fromDefinition {World} _ _ _ _ _ _ _.
Arguments addLambdaDataSource {World} _ _ _ _ _.
Arguments addDynamoDbDataSource {World} _ _ _ _ _.
Arguments addRdsDataSource {World} _ _ _ _ _ _ _.
Arguments addHttpDataSource {World} _ _ _ _ _.
Arguments createResolver {World} _ _ _.
Arguments fromFile {World} _ _ _.
Arguments fromString {World} _ _ _.

(** ** The construct and its state *)

(** The fields of an [AppSyncApi] object. *)
Record AppSyncApi : Type := {
  functionsByDsKey : gmap jsstring Fn;
  dataSourcesByDsKey : gmap jsstring DataSource;
  dsKeysByResKey : gmap jsstring jsstring;
  resolversByResKey : gmap jsstring Resolver;
  permissionsAttachedForAllFunctions : list Permissions;
  defaultsFunction : option FunctionProps   (* [this.props.defaults?.function] *)
}.

(** The object, the outside world, and for every [Fn] the permissions it
    was handed through [fn.attachPermissions], oldest first. *)
Record State (World : Type) : Type := {
  this : AppSyncApi;
  world : World;
  attached : gmap Fn (list Permissions)
}.
Arguments this {World} _.
Arguments world {World} _.
Arguments attached {World} _.

Definition setFunctionsByDsKey (m : gmap jsstring Fn) (a : AppSyncApi) : AppSyncApi :=
  {| functionsByDsKey := m;
     dataSourcesByDsKey := dataSourcesByDsKey a;
     dsKeysByResKey := dsKeysByResKey a;
     resolversByResKey := resolversByResKey a;
     permissionsAttachedForAllFunctions := permissionsAttachedForAllFunctions a;
     defaultsFunction := defaultsFunction a |}.

Definition setDataSourcesByDsKey (m : gmap jsstring DataSource) (a : AppSyncApi) : AppSyncApi :=
  {| functionsByDsKey := functionsByDsKey a;
     dataSourcesByDsKey := m;
     dsKeysByResKey := dsKeysByResKey a;
     resolversByResKey := resolversByResKey a;
     permissionsAttachedForAllFunctions := permissionsAttachedForAllFunctions a;
     defaultsFunction := defaultsFunction a |}.

Definition setDsKeysByResKey (m : gmap jsstring jsstring) (a : AppSyncApi) : AppSyncApi :=
  {| functionsByDsKey := functionsByDsKey a;
     dataSourcesByDsKey := dataSourcesByDsKey a;
     dsKeysByResKey := m;
     resolversByResKey := resolversByResKey a;
     permissionsAttachedForAllFunctions := permissionsAttachedForAllFunctions a;
     defaultsFunction := defaultsFunction a |}.

Definition setResolversByResKey (m : gmap jsstring Resolver) (a : AppSyncApi) : AppSyncApi :=
  {| functionsByDsKey := functionsByDsKey a;
     dataSourcesByDsKey := dataSourcesByDsKey a;
     dsKeysByResKey := dsKeysByResKey a;
     resolversByResKey := m;
     permissionsAttachedForAllFunctions := permissionsAttachedForAllFunctions a;
     defaultsFunction := defaultsFunction a |}.

Definition setPermissionsAttached (l : list Permissions) (a : AppSyncApi) : AppSyncApi :=
  {| functionsByDsKey := functionsByDsKey a;
     dataSourcesByDsKey := dataSourcesByDsKey a;
     dsKeysByResKey := dsKeysByResKey a;
     resolversByResKey := resolversByResKey a;
     permissionsAttachedForAllFunctions := l;
     defaultsFunction := defaultsFunction a |}.

(** The fields as the constructor initialises them. *)
Definition emptyApi (props : AppSyncApiProps) : AppSyncApi :=
  {| functionsByDsKey := ∅;
     dataSourcesByDsKey := ∅;
     dsKeysByResKey := ∅;
     resolversByResKey := ∅;
     permissionsAttachedForAllFunctions := [];
     defaultsFunction := props_defaults_function props |}.

(** ** The monad of methods *)

Definition M (World A : Type) : Type := State World -> Completion A * State World.

Definition ret {World A} (a : A) : M World A := fun st => (Normal a, st).

Definition throw {World A} (e : Error) : M World A := fun st => (Throw e, st).

Definition bind {World A B} (m : M World A) (k : A -> M World B) : M World B :=
  fun st =>
    match m st with
    | (Normal a, st') => k a st'
    | (Throw e, st') => (Throw e, st')
    end.

Notation "x <- m ;; k" := (bind m (fun x => k))
  (at level 100, m at next level, right associativity).
Notation "m ;;; k" := (bind m (fun _ => k))
  (at level 100, right associativity).

(** Read the object. *)
Definition getThis {World} : M World AppSyncApi := fun st => (Normal (this st), st).

(** Assign to fields of the object. *)
Definition modifyThis {World} (f : AppSyncApi -> AppSyncApi) : M World unit :=
  fun st => (Normal tt, {| this := f (this st); world := world st; attached := attached st |}).

(** An external call; what it throws is rethrown unchanged. *)
Definition ext {World A} (call : Ext World A) : M World A :=
  fun st =>
    match call (world st) with
    | (inr a, w) => (Normal a, {| this := this st; world := w; attached := attached st |})
    | (inl e, w) => (Throw (External e), {| this := this st; world := w; attached := attached st |})
    end.

(** [xs.forEach(body)]. *)
Fixpoint forEach {World A} (xs : list A) (body : A -> M World unit) : M World unit :=
  match xs with
  | [] => ret tt
  | x :: xs' => body x ;;; forEach xs' body
  end.

(** Modelled from the spec: [fn.attachPermissions(permissions)] of
    [Function.ts], which is not in this file.  The Permission Grantor is
    invoked with an opaque descriptor and has no failure of its own; the
    grant is recorded at the end of the list of the function it is made to. *)
Definition fnAttachPermissions {World} (fn : Fn) (permissions : Permissions) : M World unit :=
  fun st =>
    (Normal tt,
     {| this := this st; world := world st;
        attached := <[fn := default [] (attached st !! fn) ++ [permissions]]> (attached st) |}).

(** The permissions a function received. *)
Definition grantsOf {World} (st : State World) (fn : Fn) : list Permissions :=
  default [] (attached st !! fn).

(** ** Truthiness and property keys *)

(** A string field used as a condition: [undefined] and [""] are falsy. *)
Definition truthy (v : option jsstring) : option jsstring :=
  match v with
  | Some (c :: s) => Some (c :: s)
  | _ => None
  end.

(** A [function] field used as a condition: a construct or a props object
    is truthy, a handler string is truthy unless it is empty. *)
Definition truthyDefinition (v : option FunctionDefinition) : option FunctionDefinition :=
  match v with
  | Some (FDHandler []) => None
  | _ => v
  end.

(** [obj[k]] where [k] was read off a dictionary of strings: [undefined]
    gives the property key ["undefined"], an inherited value the string it
    reads as. *)
Definition toPropertyKey (k : JsValue jsstring) : jsstring :=
  match k with
  | Undefined => js "undefined"
  | Own s => s
  | Inherited name => inheritedToString name
  end.

(** The data-source fields read off a value of [dataSources]: a string has
    none of them, and neither has a [Function] construct or a
    [FunctionProps] object. *)
Definition noDataSourceProps : DataSourceProps :=
  {| ds_name := None; ds_description := None; ds_function := None;
     ds_table := None; ds_cdk_table := None; ds_rds := None;
     ds_databaseName := None; ds_cdk_serverlessCluster := None;
     ds_cdk_secretStore := None; ds_cdk_databaseName := None;
     ds_endpoint := None |}.

Definition dsFields (dsValue : DataSourceValue) : DataSourceProps :=
  match dsValue with
  | DSInline _ => noDataSourceProps
  | DSProps p => p
  end.

(** [dsValue as FunctionInlineDefinition]. *)
Definition dsAsInline (dsValue : DataSourceValue) : InlineArg :=
  match dsValue with
  | DSInline d => ArgDefinition d
  | DSProps p => ArgDataSourceProps p
  end.

Definition dsOptions (p : DataSourceProps) : DsOptions :=
  {| opt_name := ds_name p; opt_description := ds_description p |}.

(** [typeof resValue === "string"]. *)
Definition asString (resValue : ResolverValue) : option jsstring :=
  match resValue with
  | RVInline (FDHandler s) => Some s
  | _ => None
  end.

(** [isLambdaResolverProps]: [object.function !== undefined]. *)
Definition isLambdaResolverProps (resValue : ResolverValue) : option FunctionDefinition :=
  match resValue with
  | RVProps r => res_function r
  | RVInline _ => None
  end.

(** [isDataSourceResolverProps]: [object.dataSource !== undefined]. *)
Definition isDataSourceResolverProps (resValue : ResolverValue) : option jsstring :=
  match resValue with
  | RVProps r => res_dataSource r
  | RVInline _ => None
  end.

(** The mapping and override fields read off a value of [resolvers]. *)
Definition resFields (resValue : ResolverValue) : AppSyncApiResolverProps :=
  match resValue with
  | RVProps r => r
  | RVInline _ =>
      {| res_dataSource := None; res_function := None;
         res_requestMapping := None; res_responseMapping := None;
         res_cdk_resolver := None |}
  end.

(** [resValue as FunctionInlineDefinition]. *)
Definition resAsInline (resValue : ResolverValue) : InlineArg :=
  match resValue with
  | RVInline d => ArgDefinition d
  | RVProps r => ArgResolverProps r
  end.

(** [typeof resValue === "string" &&
    Object.keys(this.dataSourcesByDsKey).includes(resValue)]. *)
Definition registeredKey (a : AppSyncApi) (resValue : ResolverValue) : option jsstring :=
  match asString resValue with
  | Some s => if bool_decide (s ∈ dom (dataSourcesByDsKey a)) then Some s else None
  | None => None
  end.

(** [typeof resValue === "string" && resValue.indexOf(".") === -1]. *)
Definition stringWithoutDot (resValue : ResolverValue) : option jsstring :=
  match asString resValue with
  | Some s => if (indexOf DOT s =? -1)%Z then Some s else None
  | None => None
  end.

(** The [resolverProps] object: two templates and the [cdk.resolver]
    overrides spread after them. *)
Record ResolverProps : Type := {
  requestMappingTemplate : option Template;
  responseMappingTemplate : option Template;
  cdk_resolver : option ResolverCdkProps
}.

Definition emptyResolverProps : ResolverProps :=
  {| requestMappingTemplate := None; responseMappingTemplate := None;
     cdk_resolver := None |}.

(** The messages passed to [Fn.fromDefinition]. *)
Definition dataSourceMessage (dsKey : jsstring) : jsstring :=
  js "Cannot define defaults.function when a Function is passed in to the "
  ++ [34] ++ dsKey ++ js " data source".

Definition resolverMessage (resKey : jsstring) : jsstring :=
  js "Cannot define defaults.function when a Function is passed in to the "
  ++ [34] ++ resKey ++ js " resolver".

(** ** The methods *)

Section Methods.
Context {World : Type} (P : Provider World).

(** [buildMappingTemplate]. *)
Definition buildMappingTemplate (mapping : option MappingTemplate)
  : M World (option Template) :=
  match mapping with
  | None => ret None
  | Some m =>
      match truthy (file m) with
      | Some path =>
          t <- ext (fromFile P path) ;; ret (Some t)
      | None =>
          t <- ext (fromString P (inline m)) ;; ret (Some t)
      end
  end.

(** [addDataSource]. *)
Definition addDataSource (scope : Scope) (dsKey : jsstring)
    (dsValue : DataSourceValue) : M World (option Fn) :=
  a <- getThis ;;
  let p := dsFields dsValue in
  created <-
    (* Lambda ds *)
    match truthyDefinition (ds_function p) with
    | Some definition =>
        lambda <- ext (fromDefinition P scope (js "Lambda_" ++ dsKey)
                         (ArgDefinition definition) (defaultsFunction a)
                         (dataSourceMessage dsKey)) ;;
        dataSource <- ext (addLambdaDataSource P dsKey lambda (Some (dsOptions p))) ;;
        ret (dataSource, Some lambda)
    | None =>
    (* DynamoDb ds *)
    match ds_table p, ds_cdk_table p with
    | Some table, _ =>
        dataSource <- ext (addDynamoDbDataSource P dsKey (table_cdk_table table)
                             (dsOptions p)) ;;
        ret (dataSource, None)
    | None, Some cdkTable =>
        dataSource <- ext (addDynamoDbDataSource P dsKey cdkTable (dsOptions p)) ;;
        ret (dataSource, None)
    | None, None =>
    (* Rds ds *)
    match ds_rds p, ds_cdk_serverlessCluster p with
    | Some rds, _ =>
        dataSource <- ext (addRdsDataSource P dsKey
                             (rds_cdk_cluster rds)
                             (rds_cdk_cluster_secret rds)
                             (Some (default (rds_defaultDatabaseName rds)
                                            (truthy (ds_databaseName p))))
                             (dsOptions p)) ;;
        ret (dataSource, None)
    | None, Some cluster =>
        dataSource <- ext (addRdsDataSource P dsKey cluster
                             (ds_cdk_secretStore p) (ds_cdk_databaseName p)
                             (dsOptions p)) ;;
        ret (dataSource, None)
    | None, None =>
    (* Http ds *)
    match truthy (ds_endpoint p) with
    | Some endpoint =>
        dataSource <- ext (addHttpDataSource P dsKey endpoint (dsOptions p)) ;;
        ret (dataSource, None)
    | None =>
    (* Lambda function *)
        lambda <- ext (fromDefinition P scope (js "Lambda_" ++ dsKey)
                         (dsAsInline dsValue) (defaultsFunction a)
                         (dataSourceMessage dsKey)) ;;
        dataSource <- ext (addLambdaDataSource P dsKey lambda None) ;;
        ret (dataSource, Some lambda)
    end end end end ;;
  let '(dataSource, lambda) := created in
  modifyThis (fun a =>
    setDataSourcesByDsKey (<[dsKey := dataSource]> (dataSourcesByDsKey a)) a) ;;;
  match lambda with
  | Some fn =>
      modifyThis (fun a =>
        setFunctionsByDsKey (<[dsKey := fn]> (functionsByDsKey a)) a)
  | None => ret tt
  end ;;;
  ret lambda.

(** The second half of [addResolver], from the comment "Create data source
    if not created before" on: [resKey] is normalized and has been split
    into [typeName] and [fieldName]. *)
Definition bindResolver (scope : Scope) (resKey typeName fieldName : jsstring)
    (resValue : ResolverValue) : M World (option Fn) :=
  a <- getThis ;;
  bound <-
    (* DataSource key *)
    match registeredKey a resValue with
    | Some s =>
        ret (None, getProperty (dataSourcesByDsKey a) s, s, emptyResolverProps)
    | None =>
    (* DataSource key not exist *)
    match stringWithoutDot resValue with
    | Some s => throw (DataSourceDoesNotExist resKey s)
    | None =>
    (* Lambda resolver *)
    match isLambdaResolverProps resValue with
    | Some definition =>
        lambda <- ext (fromDefinition P scope
                         (js "Lambda_" ++ typeName ++ js "_" ++ fieldName)
                         (ArgDefinition definition) (defaultsFunction a)
                         (resolverMessage resKey)) ;;
        let dataSourceKey := buildDataSourceKey typeName fieldName in
        dataSource <- ext (addLambdaDataSource P dataSourceKey lambda None) ;;
        request <- buildMappingTemplate (res_requestMapping (resFields resValue)) ;;
        response <- buildMappingTemplate (res_responseMapping (resFields resValue)) ;;
        ret (Some lambda, Own dataSource, dataSourceKey,
             {| requestMappingTemplate := request;
                responseMappingTemplate := response;
                cdk_resolver := res_cdk_resolver (resFields resValue) |})
    | None =>
    (* DataSource resolver *)
    match isDataSourceResolverProps resValue with
    | Some dataSourceKey =>
        let dataSource := getProperty (dataSourcesByDsKey a) dataSourceKey in
        request <- buildMappingTemplate (res_requestMapping (resFields resValue)) ;;
        response <- buildMappingTemplate (res_responseMapping (resFields resValue)) ;;
        ret (None, dataSource, dataSourceKey,
             {| requestMappingTemplate := request;
                responseMappingTemplate := response;
                cdk_resolver := res_cdk_resolver (resFields resValue) |})
    | None =>
    (* Lambda function *)
        lambda <- ext (fromDefinition P scope
                         (js "Lambda_" ++ typeName ++ js "_" ++ fieldName)
                         (resAsInline resValue) (defaultsFunction a)
                         (resolverMessage resKey)) ;;
        let dataSourceKey := buildDataSourceKey typeName fieldName in
        dataSource <- ext (addLambdaDataSource P dataSourceKey lambda None) ;;
        ret (Some lambda, Own dataSource, dataSourceKey, emptyResolverProps)
    end end end end ;;
  let '(lambda, dataSource, dataSourceKey, resolverProps) := bound in
  (* Store new data source created: [dataSource] is defined whenever
     [lambda] is *)
  match lambda, dataSource with
  | Some fn, Own ds =>
      modifyThis (fun a =>
        setFunctionsByDsKey (<[dataSourceKey := fn]> (functionsByDsKey a))
          (setDataSourcesByDsKey (<[dataSourceKey := ds]> (dataSourcesByDsKey a)) a))
  | _, _ => ret tt
  end ;;;
  modifyThis (fun a =>
    setDsKeysByResKey (<[resKey := dataSourceKey]> (dsKeysByResKey a)) a) ;;;
  (* Create resolver *)
  resolver <- ext (createResolver P
                     {| arg_dataSource := dataSource;
                        arg_typeName := typeName;
                        arg_fieldName := fieldName;
                        arg_requestMappingTemplate := requestMappingTemplate resolverProps;
                        arg_responseMappingTemplate := responseMappingTemplate resolverProps;
                        arg_cdk_resolver := cdk_resolver resolverProps |}) ;;
  modifyThis (fun a =>
    setResolversByResKey (<[resKey := resolver]> (resolversByResKey a)) a) ;;;
  ret lambda.

(** [addResolver]: normalize the key, get type and field, then bind. *)
Definition addResolver (scope : Scope) (resKey : jsstring)
    (resValue : ResolverValue) : M World (option Fn) :=
  let resKey := normalizeResolverKey resKey in
  let resolverKeyParts := split SPACE resKey in
  match resolverKeyParts with
  | [typeName; fieldName] =>
      match fieldName with
      | [] => throw (InvalidField resKey)
      | _ => bindResolver scope resKey typeName fieldName resValue
      end
  | _ => throw (InvalidResolver resKey)
  end.

(** Attach the permissions recorded for all functions to a new one. *)
Definition attachExisting (fn : option Fn) : M World unit :=
  match fn with
  | Some fn =>
      a <- getThis ;;
      forEach (permissionsAttachedForAllFunctions a)
              (fun permissions => fnAttachPermissions fn permissions)
  | None => ret tt
  end.

(** [addDataSources]. *)
Definition addDataSources (scope : Scope)
    (dataSources : list (jsstring * DataSourceValue)) : M World unit :=
  forEach dataSources (fun entry =>
    fn <- addDataSource scope (fst entry) (snd entry) ;;
    attachExisting fn).

(** [addResolvers]. *)
Definition addResolvers (scope : Scope)
    (resolvers : list (jsstring * ResolverValue)) : M World unit :=
  forEach resolvers (fun entry =>
    fn <- addResolver scope (fst entry) (snd entry) ;;
    attachExisting fn).

(** [attachPermissions]; [Object.values] lists the functions once per key
    they are stored under. *)
Definition attachPermissions (permissions : Permissions) : M World unit :=
  a <- getThis ;;
  forEach (map snd (map_to_list (functionsByDsKey a)))
          (fun fn => fnAttachPermissions fn permissions) ;;;
  modifyThis (fun a =>
    setPermissionsAttached (permissionsAttachedForAllFunctions a ++ [permissions]) a).

(** The constructor after [createGraphApi()]: the data sources of the
    props, then the resolvers, through the private methods; [scope] is the
    construct itself. *)
Definition construct (self : Scope) (props : AppSyncApiProps) : M World unit :=
  match props_dataSources props with
  | Some dataSources =>
      forEach dataSources (fun entry =>
        addDataSource self (fst entry) (snd entry) ;;; ret tt)
  | None => ret tt
  end ;;;
  match props_resolvers props with
  | Some resolvers =>
      forEach resolvers (fun entry =>
        addResolver self (fst entry) (snd entry) ;;; ret tt)
  | None => ret tt
  end.

End Methods.

(** [getFunction]; [!fn] holds of [undefined] only: a construct and an
    inherited property are both truthy. *)
Definition getFunction (a : AppSyncApi) (key : jsstring) : JsValue Fn :=
  match getProperty (functionsByDsKey a) key with
  | Undefined =>
      let resKey := normalizeResolverKey key in
      let dsKey := getProperty (dsKeysByResKey a) resKey in
      getProperty (functionsByDsKey a) (toPropertyKey dsKey)
  | fn => fn
  end.

(** [getDataSource]. *)
Definition getDataSource (a : AppSyncApi) (key : jsstring) : JsValue DataSource :=
  match getProperty (dataSourcesByDsKey a) key with
  | Undefined =>
      let resKey := normalizeResolverKey key in
      let dsKey := getProperty (dsKeysByResKey a) resKey in
      getProperty (dataSourcesByDsKey a) (toPropertyKey dsKey)
  | ds => ds
  end.

(** [getResolver]. *)
Definition getResolver (a : AppSyncApi) (key : jsstring) : JsValue Resolver :=
  let resKey := normalizeResolverKey key in
  getProperty (resolversByResKey a) resKey.

(** [attachPermissionsToDataSource]; a property inherited from
    [Object.prototype] gets past [!fn] and has no [attachPermissions]. *)
Definition attachPermissionsToDataSource {World} (key : jsstring)
    (permissions : Permissions) : M World unit :=
  a <- getThis ;;
  match getFunction a key with
  | Undefined => throw (FunctionDoesNotExist key)
  | Own fn => fnAttachPermissions fn permissions
  | Inherited _ => throw (TypeError (js "fn.attachPermissions is not a function"))
  end.

(** [new AppSyncApi(scope, id, props)]: the state when the constructor ends,
    in a world [w] where [createGraphApi()] has run. *)
Definition newAppSyncApi {World} (P : Provider World) (self : Scope)
    (props : AppSyncApiProps) (w : World) : Completion unit * State World :=
  construct P self props {| this := emptyApi props; world := w; attached := ∅ |}.

(** ** A provider to run the methods with *)

(** A provider that keeps a construct tree, in which the id of a child is
    unique within its scope, and a set of readable files.  Data sources and
    resolvers are children of the API (scope [0]); the id of a resolver is
    [`${typeName}${fieldName}Resolver`].  The tree keeps the children of a
    construct in an object and tests [id in children], so that it takes the
    names of [Object.prototype] for children too. *)
Record Tree : Type := {
  nextId : nat;
  children : list (Scope * jsstring);
  files : list jsstring
}.

Definition newChild (scope : Scope) (id : jsstring) : Ext Tree nat :=
  fun w =>
    if bool_decide ((scope, id) ∈ children w ∨ id ∈ objectPrototypeNames) then
      (inl (js "There is already a Construct with name " ++ id), w)
    else
      (inr (nextId w),
       {| nextId := S (nextId w);
          children := (scope, id) :: children w;
          files := files w |}).

Definition treeProvider : Provider Tree :=
  {| fromDefinition := fun scope id arg defaults message =>
       match arg with
       | ArgDefinition (FDFn fn) =>
           fun w => match defaults with
                    | Some _ => (inl message, w)
                    | None => (inr fn, w)
                    end
       | _ => newChild scope id
       end;
     addLambdaDataSource := fun id _ _ => newChild 0%nat id;
     addDynamoDbDataSource := fun id _ _ => newChild 0%nat id;
     addRdsDataSource := fun id _ _ _ _ => newChild 0%nat id;
     addHttpDataSource := fun id _ _ => newChild 0%nat id;
     createResolver := fun args =>
       newChild 0%nat (arg_typeName args ++ arg_fieldName args ++ js "Resolver");
     fromFile := fun path w =>
       if bool_decide (path ∈ files w) then
         (inr (nextId w),
          {| nextId := S (nextId w); children := children w; files := files w |})
       else (inl (js "ENOENT: no such file or directory " ++ path), w);
     fromString := fun _ w =>
       (inr (nextId w),
        {| nextId := S (nextId w); children := children w; files := files w |}) |}.

Definition noProps : AppSyncApiProps :=
  {| props_dataSources := None; props_resolvers := None;
     props_defaults_function := None |}.

(** A handler path as a data source or resolver value. *)
Definition handler (s : string) : FunctionDefinition := FDHandler (js s).
Arguments handler s%_string.

(** ** Auxiliary definitions for the statements *)

(** The normalizer in one pass: every run of white space becomes one space. *)
Fixpoint collapse (inRun : bool) (s : jsstring) : jsstring :=
  match s with
  | [] => []
  | c :: s' =>
      if isWhiteSpace c then
        if inRun then collapse true s' else SPACE :: collapse true s'
      else c :: collapse false s'
  end.

(** The public calls that grant or register, as a caller issues them. *)
Inductive Call : Type :=
| CallAttachPermissions (permissions : Permissions)
| CallAddDataSources (scope : Scope) (dataSources : list (jsstring * DataSourceValue))
| CallAddResolvers (scope : Scope) (resolvers : list (jsstring * ResolverValue)).

Definition call {World} (P : Provider World) (c : Call) : M World unit :=
  match c with
  | CallAttachPermissions permissions => attachPermissions permissions
  | CallAddDataSources scope dataSources => addDataSources P scope dataSources
  | CallAddResolvers scope resolvers => addResolvers P scope resolvers
  end.

(** A sequence of calls, each of which is made after the one before it
    returned. *)
Definition calls {World} (P : Provider World) (cs : list Call) : M World unit :=
  forEach cs (call P).

(** The global grants of a sequence of calls, in the order of attachment. *)
Fixpoint globalGrants (cs : list Call) : list Permissions :=
  match cs with
  | [] => []
  | CallAttachPermissions permissions :: cs' => permissions :: globalGrants cs'
  | _ :: cs' => globalGrants cs'
  end.


(** The key sets of the four registries only grow. *)
Definition registriesGrow (a a' : AppSyncApi) : Prop :=
  dom (functionsByDsKey a) ⊆ dom (functionsByDsKey a')
  ∧ dom (dataSourcesByDsKey a) ⊆ dom (dataSourcesByDsKey a')
  ∧ dom (dsKeysByResKey a) ⊆ dom (dsKeysByResKey a')
  ∧ dom (resolversByResKey a) ⊆ dom (resolversByResKey a').

(** What a method does from a state: [N] holds of the value and the state
    it returns with, [T] of the error and the state it throws with. *)
Definition wp {World A} (m : M World A) (st : State World)
    (N : A → State World → Prop) (T : Error → State World → Prop) : Prop :=
  match m st with
  | (Normal a, st') => N a st'
  | (Throw e, st') => T e st'
  end.

(** The state with another world. *)
Definition withWorld {World} (st : State World) (w : World) : State World :=
  {| this := this st; world := w; attached := attached st |}.

(** The state with other fields of the object. *)
Definition withThis {World} (st : State World) (a : AppSyncApi) : State World :=
  {| this := a; world := world st; attached := attached st |}.

(** The state after one more grant to a function. *)
Definition withGrant {World} (st : State World) (fn : Fn) (permissions : Permissions)
  : State World :=
  {| this := this st; world := world st;
     attached := <[fn := grantsOf st fn ++ [permissions]]> (attached st) |}.

(** Two objects that differ at most in the two data-source registries. *)
Definition sameButDataSources (a a' : AppSyncApi) : Prop :=
  dsKeysByResKey a' = dsKeysByResKey a
  ∧ resolversByResKey a' = resolversByResKey a
  ∧ permissionsAttachedForAllFunctions a' = permissionsAttachedForAllFunctions a
  ∧ defaultsFunction a' = defaultsFunction a.

(** Two objects with the same retained grants and defaults. *)
Definition sameSettings (a a' : AppSyncApi) : Prop :=
  permissionsAttachedForAllFunctions a' = permissionsAttachedForAllFunctions a
  ∧ defaultsFunction a' = defaultsFunction a.

(** ** The construct tree behind the provider *)

(** The data sources of an API are children of its [graphqlApi] construct,
    named by their keys; [ids w id] says that it has a child named [id] in
    the world [w]. *)

(** An external call that removes no child. *)
Definition keepsIds {World A} (ids : World → jsstring → Prop) (c : Ext World A) : Prop :=
  ∀ w r w', c w = (r, w') → ∀ id, ids w id → ids w' id.

(** An external call that, when it returns, has made the child [id], which
    was not there before. *)
Definition makesId {World A} (ids : World → jsstring → Prop) (id : jsstring)
    (c : Ext World A) : Prop :=
  ∀ w a w', c w = (inr a, w') → ¬ ids w id ∧ ids w' id.

(** What the construct tree of the CDK keeps true of a provider: each of the
    four [add*DataSource(id, ...)] makes a child named [id], no name is
    given to two children, and no call removes a child. *)
Record ConstructIds {World} (P : Provider World) (ids : World → jsstring → Prop)
  : Prop := {
  makes_lambda : ∀ id fn options,
    makesId ids id (addLambdaDataSource P id fn options);
  makes_dynamoDb : ∀ id table options,
    makesId ids id (addDynamoDbDataSource P id table options);
  makes_rds : ∀ id cluster secret databaseName options,
    makesId ids id (addRdsDataSource P id cluster secret databaseName options);
  makes_http : ∀ id endpoint options,
    makesId ids id (addHttpDataSource P id endpoint options);
  keeps_fromDefinition : ∀ scope id arg defaults message,
    keepsIds ids (fromDefinition P scope id arg defaults message);
  keeps_lambda : ∀ id fn options,
    keepsIds ids (addLambdaDataSource P id fn options);
  keeps_dynamoDb : ∀ id table options,
    keepsIds ids (addDynamoDbDataSource P id table options);
  keeps_rds : ∀ id cluster secret databaseName options,
    keepsIds ids (addRdsDataSource P id cluster secret databaseName options);
  keeps_http : ∀ id endpoint options,
    keepsIds ids (addHttpDataSource P id endpoint options);
  keeps_createResolver : ∀ args, keepsIds ids (createResolver P args);
  keeps_fromFile : ∀ path, keepsIds ids (fromFile P path);
  keeps_fromString : ∀ s, keepsIds ids (fromString P s)
}.

(** The children of the API in the tree of [treeProvider]. *)
Definition treeIds (w : Tree) (id : jsstring) : Prop := (0%nat, id) ∈ children w.

(** Every key of the two data-source registries names a child. *)
Definition registryInTree {World} (ids : World → jsstring → Prop) (st : State World)
  : Prop :=
  ∀ k, k ∈ dom (dataSourcesByDsKey (this st)) ∨ k ∈ dom (functionsByDsKey (this st)) →
       ids (world st) k.

(** The entries of the two data-source registries of [a] are entries of
    [a']. *)
Definition entriesKept (a a' : AppSyncApi) : Prop :=
  (∀ k dataSource, dataSourcesByDsKey a !! k = Some dataSource →
                   dataSourcesByDsKey a' !! k = Some dataSource)
  ∧ (∀ k fn, functionsByDsKey a !! k = Some fn → functionsByDsKey a' !! k = Some fn).

(** What a registration does to the tree and to the two data-source
    registries: nothing is removed from the tree, and the registries are as
    they were, or have a new entry under a key that names a new child. *)
Definition registered {World} (ids : World → jsstring → Prop) (k : jsstring)
    (st st' : State World) : Prop :=
  (∀ id, ids (world st) id → ids (world st') id)
  ∧ ((dataSourcesByDsKey (this st') = dataSourcesByDsKey (this st)
      ∧ functionsByDsKey (this st') = functionsByDsKey (this st))
     ∨ (¬ ids (world st) k ∧ ids (world st') k
        ∧ (∃ dataSource, dataSourcesByDsKey (this st')
                         = <[k := dataSource]> (dataSourcesByDsKey (this st)))
        ∧ (functionsByDsKey (this st') = functionsByDsKey (this st)
           ∨ ∃ fn, functionsByDsKey (this st')
                   = <[k := fn]> (functionsByDsKey (this st))))).

(** ** States to run the methods from *)

(** A world whose construct tree holds nothing besides the API and where two
    mapping templates can be read. *)
Definition templateFiles : Tree :=
  {| nextId := 1; children := []; files := [js "get.vtl"; js "list.vtl"] |}.

(** The API of the example in the documentation of the construct: one
    data source [notesDS] declared with a handler. *)
Definition notesProps : AppSyncApiProps :=
  {| props_dataSources := Some [(js "notesDS", DSInline (handler "src/notes.main"))];
     props_resolvers := None;
     props_defaults_function := None |}.

Definition notesState : State Tree :=
  snd (newAppSyncApi treeProvider 0%nat notesProps templateFiles).

(** An API whose data source is registered under a key that also reads as a
    handler path. *)
Definition dottedProps : AppSyncApiProps :=
  {| props_dataSources := Some [(js "src/notes.main", DSInline (handler "src/notes.main"))];
     props_resolvers := None;
     props_defaults_function := None |}.

Definition dottedState : State Tree :=
  snd (newAppSyncApi treeProvider 0%nat dottedProps templateFiles).

(** A resolver declared with a [dataSource] field that names [billingDS]. *)
Definition billingResolver : AppSyncApiResolverProps :=
  {| res_dataSource := Some (js "billingDS");
     res_function := None;
     res_requestMapping := Some {| file := Some (js "list.vtl"); inline := None |};
     res_responseMapping := None;
     res_cdk_resolver := None |}.

(** A resolver declared with a [function] next to a [dataSource] that names
    [billingDS]. *)
Definition billingFunctionResolver : AppSyncApiResolverProps :=
  {| res_dataSource := Some (js "billingDS");
     res_function := Some (handler "src/billing.main");
     res_requestMapping := None;
     res_responseMapping := None;
     res_cdk_resolver := None |}.

(** A resolver declared with a [dataSource] field that names [constructor]. *)
Definition constructorResolver : AppSyncApiResolverProps :=
  {| res_dataSource := Some (js "constructor");
     res_function := None;
     res_requestMapping := None;
     res_responseMapping := None;
     res_cdk_resolver := None |}.

(** The example with its two resolvers bound to [notesDS]. *)
Definition notesResolversProps : AppSyncApiProps :=
  {| props_dataSources := Some [(js "notesDS", DSInline (handler "src/notes.main"))];
     props_resolvers :=
       Some [(js "Query    listNotes", RVInline (handler "notesDS"));
             (js "Mutation createNote", RVInline (handler "notesDS"))];
     props_defaults_function := None |}.

Definition notesResolversState : State Tree :=
  snd (newAppSyncApi treeProvider 0%nat notesResolversProps templateFiles).

(** A Lambda data source given as an object with a name of its own. *)
Definition lambdaDataSource (path name : string) : DataSourceValue :=
  DSProps {| ds_name := Some (js name); ds_description := None;
             ds_function := Some (handler path);
             ds_table := None; ds_cdk_table := None; ds_rds := None;
             ds_databaseName := None; ds_cdk_serverlessCluster := None;
             ds_cdk_secretStore := None; ds_cdk_databaseName := None;
             ds_endpoint := None |}.
Arguments lambdaDataSource (path name)%_string.

(** An API in which a data source is registered under a key that is also
    the key of a resolver bound to another data source. *)
Definition shadowProps : AppSyncApiProps :=
  {| props_dataSources :=
       Some [(js "Query listNotes", lambdaDataSource "src/list.main" "listDS");
             (js "notesDS", DSInline (handler "src/notes.main"))];
     props_resolvers := Some [(js "Query listNotes", RVInline (handler "notesDS"))];
     props_defaults_function := None |}.

Definition shadowState : State Tree :=
  snd (newAppSyncApi treeProvider 0%nat shadowProps templateFiles).

(** An API with a data source registered under the key ["undefined"]. *)
Definition undefinedProps : AppSyncApiProps :=
  {| props_dataSources := Some [(js "undefined", DSInline (handler "src/notes.main"))];
     props_resolvers := None;
     props_defaults_function := None |}.

Definition undefinedState : State Tree :=
  snd (newAppSyncApi treeProvider 0%nat undefinedProps templateFiles).

(** An HTTP data source. *)
Definition httpDataSource (endpoint : string) : DataSourceValue :=
  DSProps {| ds_name := None; ds_description := None; ds_function := None;
             ds_table := None; ds_cdk_table := None; ds_rds := None;
             ds_databaseName := None; ds_cdk_serverlessCluster := None;
             ds_cdk_secretStore := None; ds_cdk_databaseName := None;
             ds_endpoint := Some (js endpoint) |}.
Arguments httpDataSource endpoint%_string.

(** An API with two data sources. *)
Definition twoSourcesProps : AppSyncApiProps :=
  {| props_dataSources :=
       Some [(js "notesDS", DSInline (handler "src/notes.main"));
             (js "billingDS", DSInline (handler "src/billing.main"))];
     props_resolvers := None;
     props_defaults_function := None |}.

Definition twoSourcesState : State Tree :=
  snd (newAppSyncApi treeProvider 0%nat twoSourcesProps templateFiles).

(** A batch whose second key normalizes to the first. *)
Definition collidingBatch : list (jsstring * ResolverValue) :=
  [(js "Query listNotes", RVInline (handler "notesDS"));
   (js "Query   listNotes", RVInline (handler "billingDS"));
   (js "Query getNote", RVInline (handler "notesDS"))].

(** A batch whose second key has no field name. *)
Definition invalidBatch : list (jsstring * ResolverValue) :=
  [(js "Query listNotes", RVInline (handler "notesDS"));
   (js "Query", RVInline (handler "notesDS"));
   (js "Query getNote", RVInline (handler "notesDS"))].

(** Calls on the API of the example: a grant, a data source, another grant,
    a resolver with a function of its own. *)
Definition grantCalls : list Call :=
  [CallAttachPermissions 7%nat;
   CallAddDataSources 0%nat [(js "billingDS", DSInline (handler "src/billing.main"))];
   CallAttachPermissions 8%nat;
   CallAddResolvers 0%nat [(js "Query listNotes", RVInline (handler "src/list.main"))]].

Definition grantsRun : State Tree := snd (calls treeProvider grantCalls notesState).

(** ** Further definitions *)

(** A key in which every white-space character is a single space that does
    not follow another one; [inRun] tells that the previous character was a
    space. *)
Fixpoint singleSpaced (inRun : bool) (s : jsstring) : bool :=
  match s with
  | [] => true
  | c :: s' =>
      if isWhiteSpace c then negb inRun && (c =? SPACE) && singleSpaced true s'
      else singleSpaced false s'
  end.

(** The [dataSources] field of [getConstructMetadata()]: one entry for each
    entry of [dataSourcesByDsKey], with its key as [name] and, as [fn], the
    function handed to [getFunctionRef].  The entries come in the order of
    the finite map, not in the order of insertion. *)
Definition getConstructMetadata (a : AppSyncApi) : list (jsstring * JsValue Fn) :=
  map (λ entry, (fst entry, getProperty (functionsByDsKey a) (fst entry)))
      (map_to_list (dataSourcesByDsKey a)).

(** A public call of any kind. *)
Inductive Operation : Type :=
| OpCall (c : Call)
| OpAttachPermissionsToDataSource (key : jsstring) (permissions : Permissions).

Definition perform {World} (P : Provider World) (op : Operation) : M World unit :=
  match op with
  | OpCall c => call P c
  | OpAttachPermissionsToDataSource key permissions =>
      attachPermissionsToDataSource key permissions
  end.

(** A sequence of public calls by a caller that catches what they throw and
    goes on. *)
Definition performAll {World} (P : Provider World) (ops : list Operation)
    (st : State World) : State World :=
  fold_left (λ st op, snd (perform P op st)) ops st.

(** A key of the index: normalized, and made of a type name and a non-empty
    field name. *)
Definition resolverKeyShape (k : jsstring) : Prop :=
  normalizeResolverKey k = k
  ∧ ∃ typeName fieldName,
      split SPACE k = [typeName; fieldName] ∧ fieldName ≠ [].

(** What the registries of an object keep true of each other. *)
Definition registriesConsistent (a : AppSyncApi) : Prop :=
  dom (functionsByDsKey a) ⊆ dom (dataSourcesByDsKey a)
  ∧ dom (resolversByResKey a) ⊆ dom (dsKeysByResKey a)
  ∧ ∀ k, k ∈ dom (dsKeysByResKey a) → resolverKeyShape k.

(** The number of keys a function is stored under. *)
Definition keysOf (a : AppSyncApi) (fn : Fn) : nat :=
  length (filter (λ g, g = fn) (map snd (map_to_list (functionsByDsKey a)))).

(** An API in which one [Function] construct is given as two data sources. *)
Definition sharedFunctionProps : AppSyncApiProps :=
  {| props_dataSources :=
       Some [(js "readDS", DSInline (FDFn 42%nat));
             (js "writeDS", DSInline (FDFn 42%nat))];
     props_resolvers := None;
     props_defaults_function := None |}.

Definition sharedFunctionState : State Tree :=
  snd (newAppSyncApi treeProvider 0%nat sharedFunctionProps templateFiles).




(** * Properties *)

(** ** Strings *)

Example normalize_ex1 :
  normalizeResolverKey (js "Query   foo") = js "Query foo".
Proof. reflexivity. Qed.

Example normalize_ex2 :
  normalizeResolverKey (js " Query foo  ") = js " Query foo ".
Proof. reflexivity. Qed.

Example split_ex1 : split SPACE (js "Query a b") = [js "Query"; js "a"; js "b"].
Proof. reflexivity. Qed.

Lemma splitWhiteSpace_not_nil b s : splitWhiteSpace b s ≠ [].
Proof.
  revert b; induction s as [|c s IH]; intros b; simpl; [done|].
  destruct (isWhiteSpace c).
  - destruct b; [apply IH | done].
  - specialize (IH false). destruct (splitWhiteSpace false s); done.
Qed.

Lemma join_pushHead sep c l : l ≠ [] → join sep (pushHead c l) = c :: join sep l.
Proof. destruct l as [|t [|t' l]]; simpl; done. Qed.

Lemma join_nil_cons sep l : l ≠ [] → join sep ([] :: l) = sep ++ join sep l.
Proof. destruct l; simpl; done. Qed.

Lemma join_splitWhiteSpace b s :
  join [SPACE] (splitWhiteSpace b s) = collapse b s.
Proof.
  revert b; induction s as [|c s IH]; intros b; simpl; [done|].
  destruct (isWhiteSpace c).
  - destruct b; [apply IH|].
    rewrite join_nil_cons by apply splitWhiteSpace_not_nil.
    simpl. by rewrite IH.
  - rewrite join_pushHead by apply splitWhiteSpace_not_nil. by rewrite IH.
Qed.

Lemma normalizeResolverKey_collapse s : normalizeResolverKey s = collapse false s.
Proof. apply join_splitWhiteSpace. Qed.

Lemma collapse_collapse s :
  (∀ b, collapse false (collapse b s) = collapse b s)
  ∧ collapse true (collapse true s) = collapse true s.
Proof.
  induction s as [|c s [IH1 IH2]]; [done|].
  split.
  - intros b. simpl. destruct (isWhiteSpace c) eqn:Hc.
    + destruct b; [apply IH1|]. simpl. by rewrite IH2.
    + simpl. rewrite Hc. by rewrite IH1.
  - simpl. destruct (isWhiteSpace c) eqn:Hc; [done|].
    simpl. rewrite Hc. by rewrite IH1.
Qed.

Lemma collapse_run b x w v y :
  isWhiteSpace w = true → isWhiteSpace v = true →
  collapse b (x ++ w :: v :: y) = collapse b (x ++ w :: y).
Proof.
  intros Hw Hv. revert b; induction x as [|c x IH]; intros b; simpl.
  - rewrite Hw, Hv. by destruct b.
  - destruct (isWhiteSpace c); [destruct b|]; by rewrite IH.
Qed.

Lemma collapse_any_space b x w y :
  isWhiteSpace w = true →
  collapse b (x ++ w :: y) = collapse b (x ++ SPACE :: y).
Proof.
  intros Hw. revert b; induction x as [|c x IH]; intros b; simpl.
  - rewrite Hw. done.
  - destruct (isWhiteSpace c); [destruct b|]; by rewrite IH.
Qed.

Lemma last_collapse_space w x :
  isWhiteSpace w = true →
  (collapse true (x ++ [w]) = [] ∨ last (collapse true (x ++ [w])) = Some SPACE)
  ∧ last (collapse false (x ++ [w])) = Some SPACE.
Proof.
  intros Hw. induction x as [|c x [IH1 IH2]]; simpl.
  - rewrite Hw. auto.
  - destruct (isWhiteSpace c).
    + split; [done|]. destruct IH1 as [->|IH1]; [done|].
      destruct (collapse true (x ++ [w])); done.
    + destruct (collapse false (x ++ [w])); [done|]. auto.
Qed.

Lemma collapse_white_space_run b x w run y :
  isWhiteSpace w = true → Forall (λ c, isWhiteSpace c = true) run →
  collapse b (x ++ w :: run ++ y) = collapse b (x ++ SPACE :: y).
Proof.
  intros Hw Hrun. induction Hrun as [|v run Hv _ IH]; simpl.
  - by apply collapse_any_space.
  - by rewrite collapse_run.
Qed.

(** C5, as amended. The normalizer splits on runs of white space and rejoins
    with single spaces without trimming: it is idempotent, a white-space
    character of any kind counts as a space and a run of them of any length
    as one space, so that two keys that differ in one run normalize to the
    same key; a leading or trailing run is kept as one space; and
    ["Query   foo"] and ["Query foo"] both normalize to ["Query foo"]. *)
Theorem normalizeResolverKey_collapses_runs (x y : jsstring) (w v : N) :
  isWhiteSpace w = true → isWhiteSpace v = true →
  normalizeResolverKey (normalizeResolverKey x) = normalizeResolverKey x
  ∧ normalizeResolverKey (x ++ w :: v :: y) = normalizeResolverKey (x ++ SPACE :: y)
  ∧ head (normalizeResolverKey (w :: y)) = Some SPACE
  ∧ last (normalizeResolverKey (x ++ [w])) = Some SPACE
  ∧ normalizeResolverKey (js "Query   foo") = js "Query foo"
  ∧ normalizeResolverKey (js "Query foo") = js "Query foo"
  ∧ normalizeResolverKey (x ++ w :: y) = normalizeResolverKey (x ++ SPACE :: y)
  ∧ (∀ run run',
       Forall (λ c, isWhiteSpace c = true) run → run ≠ [] →
       Forall (λ c, isWhiteSpace c = true) run' → run' ≠ [] →
       normalizeResolverKey (x ++ run ++ y) = normalizeResolverKey (x ++ run' ++ y)).
Proof.
  intros Hw Hv. rewrite !normalizeResolverKey_collapse.
  apply conj; [apply collapse_collapse|].
  apply conj; [rewrite collapse_run by done; by apply collapse_any_space|].
  apply conj; [simpl; by rewrite Hw|].
  apply conj; [by apply last_collapse_space|].
  apply conj; [reflexivity|]. apply conj; [reflexivity|].
  apply conj; [by apply collapse_any_space|].
  intros run run' Hrun Hne Hrun' Hne'. rewrite !normalizeResolverKey_collapse.
  destruct run as [|c run]; [done|]. destruct run' as [|c' run']; [done|].
  apply Forall_cons in Hrun as [Hc Hrun]. apply Forall_cons in Hrun' as [Hc' Hrun'].
  simpl. by rewrite !collapse_white_space_run.
Qed.

Lemma normalizeResolverKey_collapses_runs_witness :
  normalizeResolverKey (normalizeResolverKey (js "Query")) = normalizeResolverKey (js "Query")
  ∧ normalizeResolverKey (js "Query" ++ 9 :: 32 :: js "foo")
    = normalizeResolverKey (js "Query" ++ SPACE :: js "foo")
  ∧ head (normalizeResolverKey (9 :: js "foo")) = Some SPACE
  ∧ last (normalizeResolverKey (js "Query" ++ [9])) = Some SPACE
  ∧ normalizeResolverKey (js "Query   foo") = js "Query foo"
  ∧ normalizeResolverKey (js "Query foo") = js "Query foo"
  ∧ normalizeResolverKey (js "Query" ++ 9 :: js "foo")
    = normalizeResolverKey (js "Query" ++ SPACE :: js "foo")
  ∧ normalizeResolverKey (js "Query" ++ [9; 10; 32] ++ js "foo")
    = normalizeResolverKey (js "Query" ++ [32; 32] ++ js "foo").
Proof.
  destruct (normalizeResolverKey_collapses_runs (js "Query") (js "foo") 9 32)
    as (H1 & H2 & H3 & H4 & H5 & H6 & H7 & H8); [reflexivity | reflexivity |].
  do 7 (split; [assumption|]).
  apply H8; [repeat constructor | discriminate | repeat constructor | discriminate].
Defined.

(** C5, as stated, fails: the key [" Query foo "] is not trimmed. *)
Lemma normalizeResolverKey_does_not_trim :
  normalizeResolverKey (js " Query foo ") = js " Query foo "
  ∧ normalize_spec (js " Query foo ") = js "Query foo"
  ∧ normalizeResolverKey (js " Query foo ") ≠ normalize_spec (js " Query foo ").
Proof. repeat split. vm_compute. discriminate. Qed.

(** ** Reading a property *)

Lemma getProperty_own {A} (m : gmap jsstring A) k a :
  m !! k = Some a → getProperty m k = Own a.
Proof. unfold getProperty. by intros ->. Qed.

Lemma getProperty_undefined {A} (m : gmap jsstring A) k :
  m !! k = None → k ∉ objectPrototypeNames → getProperty m k = Undefined.
Proof. unfold getProperty. intros -> H. by rewrite bool_decide_eq_false_2. Qed.

Lemma getProperty_inherited {A} (m : gmap jsstring A) k :
  m !! k = None → k ∈ objectPrototypeNames → getProperty m k = Inherited k.
Proof. unfold getProperty. intros -> H. by rewrite bool_decide_eq_true_2. Qed.

Lemma getProperty_Own_iff {A} (m : gmap jsstring A) k a :
  getProperty m k = Own a ↔ m !! k = Some a.
Proof.
  unfold getProperty. destruct (m !! k) as [b|].
  - split; by intros [= ->].
  - case_bool_decide; split; discriminate.
Qed.

Lemma getProperty_Undefined_iff {A} (m : gmap jsstring A) k :
  getProperty m k = Undefined ↔ m !! k = None ∧ k ∉ objectPrototypeNames.
Proof.
  unfold getProperty. destruct (m !! k) as [b|].
  - split; [discriminate | by intros [? _]].
  - case_bool_decide; split; try discriminate; try done. by intros [_ ?].
Qed.

Lemma getProperty_Inherited_iff {A} (m : gmap jsstring A) k name :
  getProperty m k = Inherited name
  ↔ m !! k = None ∧ k ∈ objectPrototypeNames ∧ name = k.
Proof.
  unfold getProperty. destruct (m !! k) as [b|].
  - split; [discriminate | by intros [? _]].
  - case_bool_decide; split; try discriminate.
    + by intros [= <-].
    + by intros (_ & _ & ->).
    + by intros (_ & ? & _).
Qed.

(** ** The derived data-source key *)

Lemma underscore_split (t1 f1 t2 f2 : jsstring) :
  UNDERSCORE ∉ t1 → UNDERSCORE ∉ t2 →
  t1 ++ UNDERSCORE :: f1 = t2 ++ UNDERSCORE :: f2 → t1 = t2 ∧ f1 = f2.
Proof.
  revert t2; induction t1 as [|c t1 IH]; intros [|d t2] H1 H2 Heq; simpl in Heq.
  - by inversion Heq.
  - inversion Heq; subst. exfalso. apply H2. left.
  - inversion Heq; subst. exfalso. apply H1. left.
  - inversion Heq; subst.
    destruct (IH t2) as [-> ->]; try done.
    + intros ?. apply H1. by right.
    + intros ?. apply H2. by right.
Qed.

Lemma buildDataSourceKey_unfold t f :
  buildDataSourceKey t f = js "LambdaDS_" ++ (t ++ UNDERSCORE :: f).
Proof. reflexivity. Qed.

(** C4, as amended. The derived key is a function of (typeName, fieldName)
    alone, the two names after the prefix ["LambdaDS_"] with an underscore
    between them; two pairs with the same derived key are equal when they
    have the same type name, or the same field name, or type names without
    an underscore. *)
Theorem buildDataSourceKey_injective (t1 f1 t2 f2 : jsstring) :
  buildDataSourceKey t1 f1 = js "LambdaDS_" ++ t1 ++ [UNDERSCORE] ++ f1
  ∧ (t1 = t2 ∨ f1 = f2 ∨ ((UNDERSCORE ∉ t1) ∧ (UNDERSCORE ∉ t2)) →
     buildDataSourceKey t1 f1 = buildDataSourceKey t2 f2 →
     t1 = t2 ∧ f1 = f2).
Proof.
  split; [reflexivity|].
  intros H Heq. rewrite !buildDataSourceKey_unfold in Heq.
  apply app_inv_head in Heq.
  destruct H as [->|[->|[H1 H2]]].
  - apply app_inv_head in Heq. by inversion Heq.
  - split; [|done].
    change (t1 ++ [UNDERSCORE] ++ f2 = t2 ++ [UNDERSCORE] ++ f2) in Heq.
    rewrite !app_assoc in Heq. apply app_inv_tail in Heq.
    by apply app_inv_tail in Heq.
  - by apply underscore_split.
Qed.

Lemma buildDataSourceKey_injective_witness :
  ((UNDERSCORE ∉ js "Query") ∧ (UNDERSCORE ∉ js "Query"))
  ∧ js "Query" = js "Query" ∧ js "listNotes" = js "listNotes".
Proof.
  assert (H : UNDERSCORE ∉ js "Query")
    by (apply (bool_decide_unpack _); vm_compute; exact I).
  split; [by split|].
  apply (proj2 (buildDataSourceKey_injective (js "Query") (js "listNotes")
                  (js "Query") (js "listNotes"))); [|reflexivity].
  right; right; by split.
Defined.

(** C4, as stated, fails: two distinct pairs with the same derived key. *)
Lemma buildDataSourceKey_collision :
  (js "Query_a", js "b") ≠ (js "Query", js "a_b")
  ∧ buildDataSourceKey (js "Query_a") (js "b")
    = buildDataSourceKey (js "Query") (js "a_b").
Proof. split; [discriminate | reflexivity]. Qed.

(** ** Rules for the monad *)

Section Rules.
Context {World : Type}.
Implicit Types st : State World.

Lemma wp_ret {A} (a : A) st N T : N a st → wp (ret a) st N T.
Proof. done. Qed.

Lemma wp_throw {A} e st (N : A → State World → Prop) T :
  T e st → wp (throw e) st N T.
Proof. done. Qed.

Lemma wp_bind {A B} (m : M World A) (k : A → M World B) st N T :
  wp m st (λ a st', wp (k a) st' N T) T → wp (bind m k) st N T.
Proof. unfold wp, bind. by destruct (m st) as [[a|e] st']. Qed.

Lemma wp_getThis st N T : N (this st) st → wp getThis st N T.
Proof. done. Qed.

Lemma wp_modifyThis f st N T :
  N tt (withThis st (f (this st))) → wp (modifyThis f) st N T.
Proof. done. Qed.

Lemma wp_ext {A} (c : Ext World A) st N T :
  (∀ a w, c (world st) = (inr a, w) → N a (withWorld st w)) →
  (∀ x w, c (world st) = (inl x, w) → T (External x) (withWorld st w)) →
  wp (ext c) st N T.
Proof.
  intros HN HT. unfold wp, ext.
  destruct (c (world st)) as [[x|a] w] eqn:Hc; [by apply HT | by apply HN].
Qed.

Lemma wp_fnAttachPermissions fn p st N T :
  N tt (withGrant st fn p) → wp (fnAttachPermissions fn p) st N T.
Proof. done. Qed.

Lemma wp_mono {A} (m : M World A) st (N N' : A → State World → Prop) T T' :
  wp m st N T →
  (∀ a st', N a st' → N' a st') → (∀ e st', T e st' → T' e st') →
  wp m st N' T'.
Proof. unfold wp. destruct (m st) as [[a|e] st']; auto. Qed.

Lemma wp_normal {A} (m : M World A) st N T a st' :
  wp m st N T → m st = (Normal a, st') → N a st'.
Proof. unfold wp. intros H Heq. by rewrite Heq in H. Qed.

Lemma wp_thrown {A} (m : M World A) st N T e st' :
  wp m st N T → m st = (Throw e, st') → T e st'.
Proof. unfold wp. intros H Heq. by rewrite Heq in H. Qed.

Lemma wp_eq {A} (m m' : M World A) st N T :
  m st = m' st → wp m' st N T → wp m st N T.
Proof. unfold wp. by intros ->. Qed.

Lemma wp_intro {A} (m : M World A) st (N : A → State World → Prop) T :
  (∀ a st', m st = (Normal a, st') → N a st') →
  (∀ e st', m st = (Throw e, st') → T e st') →
  wp m st N T.
Proof. unfold wp. destruct (m st) as [[a|e] st']; auto. Qed.

Lemma wp_forEach {A} (I : State World → Prop) (xs : list A)
    (body : A → M World unit) st T :
  I st →
  (∀ x st1, x ∈ xs → I st1 → wp (body x) st1 (λ _ st2, I st2) T) →
  wp (forEach xs body) st (λ _ st', I st') T.
Proof.
  revert st; induction xs as [|x xs IH]; intros st HI Hbody; simpl.
  - by apply wp_ret.
  - apply wp_bind. eapply wp_mono; [apply Hbody; [left|done]| |done].
    intros [] st' HI'. simpl. apply IH; [done|].
    intros y st1 Hy. apply Hbody. by right.
Qed.

End Rules.

Ltac wp_step :=
  lazymatch goal with
  | |- wp (bind _ _) _ _ _ => apply wp_bind
  | |- wp (ret _) _ _ _ => apply wp_ret
  | |- wp (throw _) _ _ _ => apply wp_throw
  | |- wp getThis _ _ _ => apply wp_getThis
  | |- wp (modifyThis _) _ _ _ => apply wp_modifyThis
  | |- wp (fnAttachPermissions _ _) _ _ _ => apply wp_fnAttachPermissions
  | |- wp (ext _) _ _ _ => apply wp_ext; intros ? ? ?
  | |- wp (match ?x with _ => _ end) _ _ _ => destruct x eqn:?
  end.

Ltac wp_run := repeat (wp_step; cbv beta; simpl).

(** Conjunctions, disjunctions and existentials of equations that hold by
    computation. *)
Ltac spec_solve :=
  lazymatch goal with
  | |- _ ∧ _ => split; spec_solve
  | |- ∃ _, _ => eexists; spec_solve
  | |- _ ∨ _ => first [left; spec_solve | right; spec_solve]
  | |- _ => reflexivity
  end.

(** ** The mapping-template builder *)

(** The builder changes nothing but the world, and throws only what the
    external call throws. *)
Lemma wp_buildMappingTemplate {World} (P : Provider World) mapping (st : State World)
    (N : option Template → State World → Prop) T :
  (mapping = None → N None st) →
  (∀ t w, mapping ≠ None → N (Some t) (withWorld st w)) →
  (∀ x w, mapping ≠ None → T (External x) (withWorld st w)) →
  wp (buildMappingTemplate P mapping) st N T.
Proof.
  intros H0 HN HT. unfold buildMappingTemplate.
  destruct mapping as [m|]; [|by apply wp_ret, H0].
  destruct (truthy (file m)); wp_run; try (by apply HN); by apply HT.
Qed.

(** C8, as amended. The builder maps an absent spec to an absent artifact
    without any call; a spec whose [file] is a non-empty string to the
    artifact [fromFile] loads from that path, whether or not [inline] is
    set; every other spec to the artifact [fromString] makes of its [inline]
    field, set or not.  The only errors are those the two calls throw. *)
Theorem buildMappingTemplate_cases {World} (P : Provider World)
    (mapping : option MappingTemplate) (st : State World) :
  (mapping = None → buildMappingTemplate P mapping st = (Normal None, st))
  ∧ (∀ m path, mapping = Some m → file m = Some path → path ≠ [] →
       buildMappingTemplate P mapping st
       = (t <- ext (fromFile P path) ;; ret (Some t)) st)
  ∧ (∀ m, mapping = Some m → file m = None ∨ file m = Some [] →
       buildMappingTemplate P mapping st
       = (t <- ext (fromString P (inline m)) ;; ret (Some t)) st)
  ∧ (∀ e st', buildMappingTemplate P mapping st = (Throw e, st') →
       ∃ x, e = External x).
Proof.
  repeat split.
  - by intros ->.
  - intros m path -> Hfile Hpath. simpl. rewrite Hfile.
    destruct path; done.
  - intros m -> [Hfile|Hfile]; simpl; by rewrite Hfile.
  - intros e st' H.
    eapply (wp_thrown _ _ (λ _ _, True) (λ e _, ∃ x, e = External x)); [|exact H].
    apply wp_buildMappingTemplate; eauto.
Qed.

Lemma buildMappingTemplate_cases_witness :
  buildMappingTemplate treeProvider
    (Some {| file := Some (js "get.vtl"); inline := None |})
    {| this := emptyApi noProps;
       world := {| nextId := 1; children := []; files := [js "get.vtl"] |};
       attached := ∅ |}
  = (Normal (Some 1%nat),
     {| this := emptyApi noProps;
        world := {| nextId := 2; children := []; files := [js "get.vtl"] |};
        attached := ∅ |}).
Proof.
  set (st := {| this := emptyApi noProps;
       world := {| nextId := 1; children := []; files := [js "get.vtl"] |};
       attached := ∅ |}).
  destruct (buildMappingTemplate_cases treeProvider
              (Some {| file := Some (js "get.vtl"); inline := None |}) st)
    as (_ & Hfile & _).
  rewrite (Hfile _ (js "get.vtl") eq_refl eq_refl); [reflexivity | discriminate].
Defined.

(** C8, as stated, fails: a spec with both fields set is built from its
    file, and a spec with neither is built by [fromString]; neither throws. *)
Lemma buildMappingTemplate_both_and_neither :
  let st := {| this := emptyApi noProps;
               world := {| nextId := 1; children := []; files := [js "get.vtl"] |};
               attached := ∅ |} in
  fst (buildMappingTemplate treeProvider
         (Some {| file := Some (js "get.vtl"); inline := Some (js "{}") |}) st)
  = Normal (Some 1%nat)
  ∧ fst (buildMappingTemplate treeProvider
           (Some {| file := Some (js "missing.vtl"); inline := Some (js "{}") |}) st)
    = Throw (External (js "ENOENT: no such file or directory missing.vtl"))
  ∧ fst (buildMappingTemplate treeProvider
           (Some {| file := None; inline := None |}) st)
    = Normal (Some 1%nat).
Proof. repeat split. Qed.

(** ** What one registration does *)

(** [addDataSource] either throws what an external call threw and leaves the
    object as it was, or writes the new handle under the key, and the new
    function when there is one. *)
Lemma addDataSource_spec {World} (P : Provider World) scope dsKey dsValue
    (st : State World) :
  wp (addDataSource P scope dsKey dsValue) st
    (λ lambda st',
       attached st' = attached st
       ∧ sameButDataSources (this st) (this st')
       ∧ (∃ dataSource,
            dataSourcesByDsKey (this st')
            = <[dsKey := dataSource]> (dataSourcesByDsKey (this st)))
       ∧ functionsByDsKey (this st')
         = match lambda with
           | Some fn => <[dsKey := fn]> (functionsByDsKey (this st))
           | None => functionsByDsKey (this st)
           end)
    (λ e st',
       attached st' = attached st ∧ this st' = this st ∧ ∃ x, e = External x).
Proof.
  unfold addDataSource. wp_run; unfold sameButDataSources; simpl; spec_solve.
Qed.

(** [bindResolver] returns after writing the index and the resolver, and the
    new function and data source under the derived key when it made them.
    When it throws, the resolver registry is as it was; the rest of the
    object is as it was too unless it is [createResolver] that threw, after
    the index and the data-source registries were written. *)
Lemma bindResolver_spec {World} (P : Provider World) scope resKey typeName fieldName
    resValue (st : State World) :
  wp (bindResolver P scope resKey typeName fieldName resValue) st
    (λ lambda st',
       attached st' = attached st
       ∧ sameSettings (this st) (this st')
       ∧ ∃ dataSourceKey resolver,
           dsKeysByResKey (this st')
           = <[resKey := dataSourceKey]> (dsKeysByResKey (this st))
           ∧ resolversByResKey (this st')
             = <[resKey := resolver]> (resolversByResKey (this st))
           ∧ match lambda with
             | Some fn =>
                 dataSourceKey = buildDataSourceKey typeName fieldName
                 ∧ functionsByDsKey (this st')
                   = <[dataSourceKey := fn]> (functionsByDsKey (this st))
                 ∧ ∃ dataSource,
                     dataSourcesByDsKey (this st')
                     = <[dataSourceKey := dataSource]> (dataSourcesByDsKey (this st))
             | None =>
                 functionsByDsKey (this st') = functionsByDsKey (this st)
                 ∧ dataSourcesByDsKey (this st') = dataSourcesByDsKey (this st)
             end)
    (λ e st',
       attached st' = attached st
       ∧ sameSettings (this st) (this st')
       ∧ isInvalidResolverKey e = false
       ∧ resolversByResKey (this st') = resolversByResKey (this st)
       ∧ (this st' = this st
          ∨ (∃ x, e = External x)
            ∧ ∃ dataSourceKey,
                dsKeysByResKey (this st')
                = <[resKey := dataSourceKey]> (dsKeysByResKey (this st))
                ∧ ((functionsByDsKey (this st') = functionsByDsKey (this st)
                    ∧ dataSourcesByDsKey (this st') = dataSourcesByDsKey (this st))
                   ∨ ∃ fn dataSource,
                       dataSourceKey = buildDataSourceKey typeName fieldName
                       ∧ functionsByDsKey (this st')
                         = <[dataSourceKey := fn]> (functionsByDsKey (this st))
                       ∧ dataSourcesByDsKey (this st')
                         = <[dataSourceKey := dataSource]> (dataSourcesByDsKey (this st))))).
Proof.
  unfold bindResolver, buildMappingTemplate.
  wp_run; unfold sameSettings; simpl; spec_solve.
Qed.

(** ** Resolver keys *)

Lemma bindResolver_not_invalid_key {World} (P : Provider World) scope resKey
    typeName fieldName resValue (st : State World) e st' :
  bindResolver P scope resKey typeName fieldName resValue st = (Throw e, st') →
  isInvalidResolverKey e = false.
Proof.
  intros H. pose proof (bindResolver_spec P scope resKey typeName fieldName resValue st) as Hs.
  eapply wp_thrown in Hs; [|exact H]. tauto.
Qed.

(** C6, as amended. [addResolver] fails with an invalid-key error, before it
    changes anything, exactly when the normalized key does not split on a
    single space into two tokens of which the second, the field name, is
    not empty; the first token may be empty.  Otherwise the two tokens
    become (typeName, fieldName).  ["Query"] and ["Query a b"] fail. *)
Theorem addResolver_key_validation {World} (P : Provider World) (scope : Scope)
    (key : jsstring) (resValue : ResolverValue) (st : State World) :
  ((∃ e st', addResolver P scope key resValue st = (Throw e, st')
             ∧ isInvalidResolverKey e = true)
   ↔ ¬ ∃ typeName fieldName,
         split SPACE (normalizeResolverKey key) = [typeName; fieldName]
         ∧ fieldName ≠ [])
  ∧ (∀ e st', addResolver P scope key resValue st = (Throw e, st') →
       isInvalidResolverKey e = true → st' = st)
  ∧ (∀ typeName fieldName,
       split SPACE (normalizeResolverKey key) = [typeName; fieldName] →
       fieldName ≠ [] →
       addResolver P scope key resValue st
       = bindResolver P scope (normalizeResolverKey key) typeName fieldName resValue st)
  ∧ addResolver P scope (js "Query") resValue st
    = (Throw (InvalidResolver (js "Query")), st)
  ∧ addResolver P scope (js "Query a b") resValue st
    = (Throw (InvalidResolver (js "Query a b")), st).
Proof.
  unfold addResolver.
  destruct (split SPACE (normalizeResolverKey key)) as [|t [|f [|x l]]] eqn:Hsplit;
    [| |destruct f as [|c f]|].
  all: repeat split; try reflexivity.
  all: try (intros _; eexists _, _; split; reflexivity).
  all: try (intros _ (t' & f' & Heq & Hf); by simplify_eq).
  all: try (intros e st' [= <- <-]; done).
  all: try (intros t' f' [= <- <-]; done).
  all: try (intros t' f' [=]; done).
  - intros (e & st' & H & He) _.
    apply bindResolver_not_invalid_key in H. congruence.
  - intros H. exfalso. apply H. by exists t, (c :: f).
  - intros e st' H He. apply bindResolver_not_invalid_key in H. congruence.
Qed.

Lemma addResolver_key_validation_witness :
  addResolver treeProvider 0%nat (js "Query    listNotes")
    (RVInline (handler "notesDS")) notesState
  = bindResolver treeProvider 0%nat (js "Query listNotes") (js "Query")
      (js "listNotes") (RVInline (handler "notesDS")) notesState.
Proof.
  destruct (addResolver_key_validation treeProvider 0%nat (js "Query    listNotes")
              (RVInline (handler "notesDS")) notesState) as (_ & _ & H & _).
  apply (H (js "Query") (js "listNotes")); [reflexivity | discriminate].
Defined.

(** C6, as stated, fails: the key [" listNotes"] splits into an empty type
    name and a field name, and the resolver is added. *)
Lemma addResolver_accepts_empty_type_name :
  split SPACE (normalizeResolverKey (js " listNotes")) = [[]; js "listNotes"]
  ∧ fst (addResolver treeProvider 0%nat (js " listNotes")
           (RVInline (handler "notesDS")) notesState) = Normal None
  ∧ dsKeysByResKey
      (this (snd (addResolver treeProvider 0%nat (js " listNotes")
                    (RVInline (handler "notesDS")) notesState)))
    !! js " listNotes" = Some (js "notesDS").
Proof. repeat split; vm_compute; reflexivity. Qed.

(** ** Resolvers declared with a string *)

Lemma indexOf_lower_bound c s : (-1 ≤ indexOf c s)%Z.
Proof.
  induction s as [|x s IH]; simpl; [lia|].
  destruct (x =? c); [lia|]. destruct (indexOf c s =? -1)%Z; lia.
Qed.

Lemma indexOf_not_found c s : indexOf c s = (-1)%Z ↔ c ∉ s.
Proof.
  induction s as [|x s IH]; simpl.
  - split; [intros _; apply not_elem_of_nil | done].
  - rewrite not_elem_of_cons. destruct (N.eqb_spec x c) as [->|Hne].
    + split; [discriminate | intros [? _]; done].
    + pose proof (indexOf_lower_bound c s).
      destruct (Z.eqb_spec (indexOf c s) (-1)) as [Heq|Hneq].
      * split; [intros _; split; [congruence | by apply IH] | done].
      * split; [lia | intros [_ Hn]; apply IH in Hn; done].
Qed.

Lemma registeredKey_string a s :
  s ∈ dom (dataSourcesByDsKey a) →
  registeredKey a (RVInline (FDHandler s)) = Some s.
Proof. intros H. unfold registeredKey; simpl. by rewrite bool_decide_eq_true_2. Qed.

Lemma registeredKey_string_miss a s :
  s ∉ dom (dataSourcesByDsKey a) →
  registeredKey a (RVInline (FDHandler s)) = None.
Proof. intros H. unfold registeredKey; simpl. by rewrite bool_decide_eq_false_2. Qed.

Lemma addResolver_valid_key {World} (P : Provider World) scope key typeName
    fieldName resValue (st : State World) :
  split SPACE (normalizeResolverKey key) = [typeName; fieldName] →
  fieldName ≠ [] →
  addResolver P scope key resValue st
  = bindResolver P scope (normalizeResolverKey key) typeName fieldName resValue st.
Proof. intros Hsplit Hf. unfold addResolver. rewrite Hsplit. by destruct fieldName. Qed.

Lemma bindResolver_unknown_string {World} (P : Provider World) scope resKey
    typeName fieldName s (st : State World) :
  s ∉ dom (dataSourcesByDsKey (this st)) → DOT ∉ s →
  bindResolver P scope resKey typeName fieldName (RVInline (FDHandler s)) st
  = (Throw (DataSourceDoesNotExist resKey s), st).
Proof.
  intros Hout Hdot. unfold bindResolver, bind, getThis. simpl.
  rewrite registeredKey_string_miss by done.
  unfold stringWithoutDot; simpl.
  apply indexOf_not_found in Hdot. by rewrite Hdot.
Qed.

(** C1. A resolver declared with a string that is a key of the data-source
    registry is bound to that data source: the only external call is
    [createResolver] with the registered handle, no function is returned and
    the two data-source registries stay as they are, whether or not the
    string contains a dot, since the registry is looked at first.  A string
    that is not a key and contains no dot fails with the unknown-data-source
    error and changes nothing. *)
Theorem addResolver_string {World} (P : Provider World) (scope : Scope)
    (key typeName fieldName s : jsstring) (st : State World) :
  split SPACE (normalizeResolverKey key) = [typeName; fieldName] →
  fieldName ≠ [] →
  let resKey := normalizeResolverKey key in
  (s ∈ dom (dataSourcesByDsKey (this st)) →
     (∃ dataSource,
        dataSourcesByDsKey (this st) !! s = Some dataSource
        ∧ getProperty (dataSourcesByDsKey (this st)) s = Own dataSource)
     ∧ addResolver P scope key (RVInline (FDHandler s)) st
       = (modifyThis (λ a, setDsKeysByResKey (<[resKey := s]> (dsKeysByResKey a)) a) ;;;
          resolver <- ext (createResolver P
                             {| arg_dataSource := getProperty (dataSourcesByDsKey (this st)) s;
                                arg_typeName := typeName;
                                arg_fieldName := fieldName;
                                arg_requestMappingTemplate := None;
                                arg_responseMappingTemplate := None;
                                arg_cdk_resolver := None |}) ;;
          modifyThis (λ a, setResolversByResKey
                             (<[resKey := resolver]> (resolversByResKey a)) a) ;;;
          ret None) st
     ∧ ∀ r st', addResolver P scope key (RVInline (FDHandler s)) st = (r, st') →
         functionsByDsKey (this st') = functionsByDsKey (this st)
         ∧ dataSourcesByDsKey (this st') = dataSourcesByDsKey (this st)
         ∧ dsKeysByResKey (this st') !! resKey = Some s
         ∧ (r = Normal None ∨ ∃ x, r = Throw (External x)))
  ∧ (s ∉ dom (dataSourcesByDsKey (this st)) → DOT ∉ s →
     addResolver P scope key (RVInline (FDHandler s)) st
     = (Throw (DataSourceDoesNotExist resKey s), st)
     ∧ isUnknownDataSource (DataSourceDoesNotExist resKey s) = true).
Proof.
  intros Hsplit Hf resKey.
  rewrite (addResolver_valid_key P scope key typeName fieldName) by done.
  fold resKey. split.
  - intros Hin.
    assert (Heq : bindResolver P scope resKey typeName fieldName (RVInline (FDHandler s)) st
       = (modifyThis (λ a, setDsKeysByResKey (<[resKey := s]> (dsKeysByResKey a)) a) ;;;
          resolver <- ext (createResolver P
                             {| arg_dataSource := getProperty (dataSourcesByDsKey (this st)) s;
                                arg_typeName := typeName;
                                arg_fieldName := fieldName;
                                arg_requestMappingTemplate := None;
                                arg_responseMappingTemplate := None;
                                arg_cdk_resolver := None |}) ;;
          modifyThis (λ a, setResolversByResKey
                             (<[resKey := resolver]> (resolversByResKey a)) a) ;;;
          ret None) st).
    { unfold bindResolver, bind at 1 2, getThis. simpl.
      rewrite registeredKey_string by done. simpl. reflexivity. }
    split; [apply elem_of_dom in Hin as [d Hd]; exists d; split;
            [done | by apply getProperty_own]|].
    split; [exact Heq|].
    rewrite Heq. intros r st'. unfold bind, modifyThis, ext, ret; simpl.
    destruct (createResolver P _ (world st)) as [[x|res] w]; intros [= <- <-]; simpl;
      rewrite lookup_insert_eq; eauto 6.
  - intros Hout Hdot. split; [|done]. by apply bindResolver_unknown_string.
Qed.

Lemma addResolver_string_witness :
  (∀ r st',
     addResolver treeProvider 0%nat (js "Query listNotes")
       (RVInline (handler "notesDS")) notesState = (r, st') →
     functionsByDsKey (this st') = functionsByDsKey (this notesState)
     ∧ dataSourcesByDsKey (this st') = dataSourcesByDsKey (this notesState)
     ∧ dsKeysByResKey (this st') !! js "Query listNotes" = Some (js "notesDS")
     ∧ (r = Normal None ∨ ∃ x, r = Throw (External x)))
  ∧ (∀ r st',
       addResolver treeProvider 0%nat (js "Query listNotes")
         (RVInline (handler "src/notes.main")) dottedState = (r, st') →
       functionsByDsKey (this st') = functionsByDsKey (this dottedState)
       ∧ dataSourcesByDsKey (this st') = dataSourcesByDsKey (this dottedState)
       ∧ dsKeysByResKey (this st') !! js "Query listNotes" = Some (js "src/notes.main")
       ∧ (r = Normal None ∨ ∃ x, r = Throw (External x)))
  ∧ addResolver treeProvider 0%nat (js "Query listNotes")
      (RVInline (handler "billingDS")) notesState
    = (Throw (DataSourceDoesNotExist (js "Query listNotes") (js "billingDS")),
       notesState).
Proof.
  split; [|split].
  - destruct (addResolver_string treeProvider 0%nat (js "Query listNotes")
                (js "Query") (js "listNotes") (js "notesDS") notesState)
      as [Hin _]; [reflexivity | discriminate |].
    apply Hin. apply elem_of_dom. eexists. vm_compute. reflexivity.
  - destruct (addResolver_string treeProvider 0%nat (js "Query listNotes")
                (js "Query") (js "listNotes") (js "src/notes.main") dottedState)
      as [Hin _]; [reflexivity | discriminate |].
    apply Hin. apply elem_of_dom. eexists. vm_compute. reflexivity.
  - destruct (addResolver_string treeProvider 0%nat (js "Query listNotes")
                (js "Query") (js "listNotes") (js "billingDS") notesState)
      as [_ Hout]; [reflexivity | discriminate |].
    apply Hout.
    + apply not_elem_of_dom. vm_compute. reflexivity.
    + apply indexOf_not_found. reflexivity.
Defined.

Example addResolver_string_runs :
  fst (addResolver treeProvider 0%nat (js "Query listNotes")
         (RVInline (handler "notesDS")) notesState) = Normal None
  ∧ fst (addResolver treeProvider 0%nat (js "Query listNotes")
           (RVInline (handler "src/notes.main")) dottedState) = Normal None
  ∧ fst (addResolver treeProvider 0%nat (js "Query listNotes")
           (RVInline (handler "src/list.main")) notesState) = Normal (Some 3%nat).
Proof. repeat split; vm_compute; reflexivity. Qed.

(** ** Resolvers declared with a [dataSource] field *)

(** C10, as amended. Let a resolver be declared with a props object whose
    [dataSource] names a key [k] that is not in the data-source registry.
    Without [function], no error of this file is raised: the templates are
    built, [k] is written to the index, [createResolver] is called with what
    [dataSourcesByDsKey[k]] reads ([undefined], unless [k] is the name of a
    property of [Object.prototype], which is then passed), no function is
    returned and the two data-source registries stay as they are.  With
    [function], the function wins: a function and a data source are made
    under the derived key, which is what the index gets.  The key as a plain
    string fails with the unknown-data-source error when it has no dot; with
    a dot it is taken for a handler, and that error is not raised. *)
Theorem addResolver_props_unregistered_dataSource {World} (P : Provider World)
    (scope : Scope) (key typeName fieldName k : jsstring)
    (r : AppSyncApiResolverProps) (st : State World) :
  split SPACE (normalizeResolverKey key) = [typeName; fieldName] →
  fieldName ≠ [] →
  res_dataSource r = Some k →
  k ∉ dom (dataSourcesByDsKey (this st)) →
  let resKey := normalizeResolverKey key in
  (res_function r = None →
     addResolver P scope key (RVProps r) st
     = (request <- buildMappingTemplate P (res_requestMapping r) ;;
        response <- buildMappingTemplate P (res_responseMapping r) ;;
        modifyThis (λ a, setDsKeysByResKey (<[resKey := k]> (dsKeysByResKey a)) a) ;;;
        resolver <- ext (createResolver P
                           {| arg_dataSource :=
                                if bool_decide (k ∈ objectPrototypeNames)
                                then Inherited k else Undefined;
                              arg_typeName := typeName;
                              arg_fieldName := fieldName;
                              arg_requestMappingTemplate := request;
                              arg_responseMappingTemplate := response;
                              arg_cdk_resolver := res_cdk_resolver r |}) ;;
        modifyThis (λ a, setResolversByResKey
                           (<[resKey := resolver]> (resolversByResKey a)) a) ;;;
        ret None) st
     ∧ (∀ e st', addResolver P scope key (RVProps r) st = (Throw e, st') →
          ∃ x, e = External x)
     ∧ (∀ v st', addResolver P scope key (RVProps r) st = (Normal v, st') →
          v = None
          ∧ dsKeysByResKey (this st') !! resKey = Some k
          ∧ (∃ resolver, resolversByResKey (this st') !! resKey = Some resolver)
          ∧ functionsByDsKey (this st') = functionsByDsKey (this st)
          ∧ dataSourcesByDsKey (this st') = dataSourcesByDsKey (this st)))
  ∧ (∀ definition, res_function r = Some definition →
       (∀ e st', addResolver P scope key (RVProps r) st = (Throw e, st') →
          ∃ x, e = External x)
       ∧ (∀ v st', addResolver P scope key (RVProps r) st = (Normal v, st') →
            let dataSourceKey := buildDataSourceKey typeName fieldName in
            ∃ fn dataSource,
              v = Some fn
              ∧ dsKeysByResKey (this st') !! resKey = Some dataSourceKey
              ∧ functionsByDsKey (this st')
                = <[dataSourceKey := fn]> (functionsByDsKey (this st))
              ∧ dataSourcesByDsKey (this st')
                = <[dataSourceKey := dataSource]> (dataSourcesByDsKey (this st))))
  ∧ (DOT ∉ k →
     addResolver P scope key (RVInline (FDHandler k)) st
     = (Throw (DataSourceDoesNotExist resKey k), st))
  ∧ (DOT ∈ k →
     (∀ e st', addResolver P scope key (RVInline (FDHandler k)) st = (Throw e, st') →
        ∃ x, e = External x)
     ∧ (∀ v st', addResolver P scope key (RVInline (FDHandler k)) st = (Normal v, st') →
          ∃ fn, v = Some fn
                ∧ dsKeysByResKey (this st') !! resKey
                  = Some (buildDataSourceKey typeName fieldName))).
Proof.
  intros Hsplit Hf Hds Hout resKey.
  rewrite !(addResolver_valid_key P scope key typeName fieldName) by done.
  fold resKey. apply not_elem_of_dom in Hout.
  split; [|split; [|split]].
  - intros Hfun.
    assert (Heq : bindResolver P scope resKey typeName fieldName (RVProps r) st
    = (request <- buildMappingTemplate P (res_requestMapping r) ;;
       response <- buildMappingTemplate P (res_responseMapping r) ;;
       modifyThis (λ a, setDsKeysByResKey (<[resKey := k]> (dsKeysByResKey a)) a) ;;;
       resolver <- ext (createResolver P
                          {| arg_dataSource :=
                               if bool_decide (k ∈ objectPrototypeNames)
                               then Inherited k else Undefined;
                             arg_typeName := typeName;
                             arg_fieldName := fieldName;
                             arg_requestMappingTemplate := request;
                             arg_responseMappingTemplate := response;
                             arg_cdk_resolver := res_cdk_resolver r |}) ;;
       modifyThis (λ a, setResolversByResKey
                          (<[resKey := resolver]> (resolversByResKey a)) a) ;;;
       ret None) st).
    { unfold bindResolver, bind at 1 2, getThis. simpl.
      rewrite Hfun, Hds. unfold getProperty. rewrite Hout.
      unfold bind.
      destruct (buildMappingTemplate P (res_requestMapping r) st) as [[req|e] st1]; [|done].
      destruct (buildMappingTemplate P (res_responseMapping r) st1) as [[resp|e] st2];
        [|done].
      by case_bool_decide. }
    split; [exact Heq|].
    assert (Hwp : wp (bindResolver P scope resKey typeName fieldName (RVProps r)) st
      (λ v st', v = None
         ∧ dsKeysByResKey (this st') !! resKey = Some k
         ∧ (∃ resolver, resolversByResKey (this st') !! resKey = Some resolver)
         ∧ functionsByDsKey (this st') = functionsByDsKey (this st)
         ∧ dataSourcesByDsKey (this st') = dataSourcesByDsKey (this st))
      (λ e _, ∃ x, e = External x)).
    { eapply wp_eq; [exact Heq|].
      unfold buildMappingTemplate. wp_run; rewrite ?lookup_insert_eq; eauto 8. }
    split.
    + intros e st' H. by eapply wp_thrown in Hwp.
    + intros v st' H. by eapply wp_normal in Hwp.
  - intros definition Hfun.
    assert (Hwp : wp (bindResolver P scope resKey typeName fieldName (RVProps r)) st
      (λ v st', ∃ fn dataSource,
         v = Some fn
         ∧ dsKeysByResKey (this st') !! resKey
           = Some (buildDataSourceKey typeName fieldName)
         ∧ functionsByDsKey (this st')
           = <[buildDataSourceKey typeName fieldName := fn]> (functionsByDsKey (this st))
         ∧ dataSourcesByDsKey (this st')
           = <[buildDataSourceKey typeName fieldName := dataSource]>
               (dataSourcesByDsKey (this st)))
      (λ e _, ∃ x, e = External x)).
    { unfold bindResolver, buildMappingTemplate. simpl. rewrite Hfun.
      wp_run; rewrite ?lookup_insert_eq; eauto 8. }
    split.
    + intros e st' H. by eapply wp_thrown in Hwp.
    + intros v st' H. by eapply wp_normal in Hwp.
  - intros Hdot. apply bindResolver_unknown_string; [by apply not_elem_of_dom | done].
  - intros Hdot.
    assert (Hwp : wp (bindResolver P scope resKey typeName fieldName
                        (RVInline (FDHandler k))) st
      (λ v st', ∃ fn, v = Some fn
         ∧ dsKeysByResKey (this st') !! resKey
           = Some (buildDataSourceKey typeName fieldName))
      (λ e _, ∃ x, e = External x)).
    { unfold bindResolver.
      apply wp_bind, wp_getThis, wp_bind.
      rewrite registeredKey_string_miss by (by apply not_elem_of_dom).
      unfold stringWithoutDot; simpl.
      destruct (Z.eqb_spec (indexOf DOT k) (-1)) as [Hi|Hi];
        [by apply indexOf_not_found in Hi|].
      wp_run; rewrite ?lookup_insert_eq; eauto 8. }
    split.
    + intros e st' H. by eapply wp_thrown in Hwp.
    + intros v st' H. by eapply wp_normal in Hwp.
Qed.

Lemma addResolver_props_unregistered_dataSource_witness :
  (∀ e st',
     addResolver treeProvider 0%nat (js "Query listNotes")
       (RVProps billingResolver) notesState = (Throw e, st') →
     ∃ x, e = External x)
  ∧ (∀ v st',
       addResolver treeProvider 0%nat (js "Query listNotes")
         (RVProps billingResolver) notesState = (Normal v, st') →
       v = None
       ∧ dsKeysByResKey (this st') !! js "Query listNotes" = Some (js "billingDS")
       ∧ (∃ resolver, resolversByResKey (this st') !! js "Query listNotes" = Some resolver)
       ∧ functionsByDsKey (this st') = functionsByDsKey (this notesState)
       ∧ dataSourcesByDsKey (this st') = dataSourcesByDsKey (this notesState))
  ∧ addResolver treeProvider 0%nat (js "Query listNotes")
      (RVInline (handler "billingDS")) notesState
    = (Throw (DataSourceDoesNotExist (js "Query listNotes") (js "billingDS")),
       notesState).
Proof.
  destruct (addResolver_props_unregistered_dataSource treeProvider 0%nat
              (js "Query listNotes") (js "Query") (js "listNotes") (js "billingDS")
              billingResolver notesState)
    as (Hprops & _ & Hstring & _);
    [reflexivity | discriminate | reflexivity | |].
  - apply not_elem_of_dom. vm_compute. reflexivity.
  - destruct Hprops as (_ & Hthrow & Hnormal); [reflexivity|].
    split; [exact Hthrow|]. split; [exact Hnormal|].
    apply Hstring. apply indexOf_not_found. reflexivity.
Defined.

(** C10, as stated, fails.  A props object with a [function] next to a
    [dataSource] that names an unregistered key makes a function and binds
    the resolver to the derived key, not to the named one.  And the plain
    string form does not fail for every unregistered key: one with a dot is
    taken for a handler. *)
Lemma addResolver_function_wins_over_dataSource :
  let result := addResolver treeProvider 0%nat (js "Query listNotes")
                  (RVProps billingFunctionResolver) notesState in
  res_dataSource billingFunctionResolver = Some (js "billingDS")
  ∧ (js "billingDS" ∉ dom (dataSourcesByDsKey (this notesState)))
  ∧ fst result = Normal (Some 3%nat)
  ∧ dsKeysByResKey (this (snd result)) !! js "Query listNotes"
    = Some (js "LambdaDS_Query_listNotes")
  ∧ is_Some (dataSourcesByDsKey (this (snd result)) !! js "LambdaDS_Query_listNotes")
  ∧ (js "billing.DS" ∉ dom (dataSourcesByDsKey (this notesState)))
  ∧ fst (addResolver treeProvider 0%nat (js "Query listNotes")
           (RVInline (handler "billing.DS")) notesState) = Normal (Some 3%nat).
Proof.
  cbv zeta.
  split; [reflexivity|]. split; [apply not_elem_of_dom; vm_compute; reflexivity|].
  split; [vm_compute; reflexivity|]. split; [vm_compute; reflexivity|].
  split; [vm_compute; eexists; reflexivity|].
  split; [apply not_elem_of_dom; vm_compute; reflexivity|].
  vm_compute; reflexivity.
Qed.

Example addResolver_props_unregistered_dataSource_runs :
  let result := addResolver treeProvider 0%nat (js "Query listNotes")
                  (RVProps billingResolver) notesState in
  fst result = Normal None
  ∧ dsKeysByResKey (this (snd result)) !! js "Query listNotes" = Some (js "billingDS")
  ∧ getDataSource (this (snd result)) (js "Query listNotes") = Undefined
  ∧ children (world (snd result))
    = [(0%nat, js "QuerylistNotesResolver"); (0%nat, js "notesDS");
       (0%nat, js "Lambda_notesDS")].
Proof. repeat split; vm_compute; reflexivity. Qed.

(** A [dataSource] that names a property of [Object.prototype]: the
    resolver is bound to what the registry inherits under that name. *)
Example addResolver_props_inherited_dataSource :
  ∀ w, bindResolver treeProvider 0%nat (js "Query listNotes") (js "Query")
         (js "listNotes") (RVProps constructorResolver)
         {| this := emptyApi noProps; world := w; attached := ∅ |}
       = (modifyThis (λ a, setDsKeysByResKey
                             (<[js "Query listNotes" := js "constructor"]>
                                (dsKeysByResKey a)) a) ;;;
          resolver <- ext (createResolver treeProvider
                             {| arg_dataSource := Inherited (js "constructor");
                                arg_typeName := js "Query";
                                arg_fieldName := js "listNotes";
                                arg_requestMappingTemplate := None;
                                arg_responseMappingTemplate := None;
                                arg_cdk_resolver := None |}) ;;
          modifyThis (λ a, setResolversByResKey
                             (<[js "Query listNotes" := resolver]>
                                (resolversByResKey a)) a) ;;;
          ret None)
           {| this := emptyApi noProps; world := w; attached := ∅ |}.
Proof. reflexivity. Qed.

(** ** Lookups *)

Lemma collapse_without_space s : SPACE ∉ collapse false s → collapse false s = s.
Proof.
  induction s as [|c s IH]; simpl; [done|].
  destruct (isWhiteSpace c).
  - intros H. exfalso. apply H. left.
  - intros H. f_equal. apply IH. intros Hin. apply H. by right.
Qed.

Lemma objectPrototypeNames_no_space name :
  name ∈ objectPrototypeNames → SPACE ∉ name.
Proof.
  unfold objectPrototypeNames. intros H.
  repeat (apply elem_of_cons in H as [->|H]; [by apply indexOf_not_found|]).
  by apply elem_of_nil in H.
Qed.

(** A key that normalizes to a name of [Object.prototype] is that name. *)
Lemma normalizeResolverKey_inherited key :
  normalizeResolverKey key ∈ objectPrototypeNames → normalizeResolverKey key = key.
Proof.
  intros H. apply objectPrototypeNames_no_space in H.
  rewrite normalizeResolverKey_collapse in *. by apply collapse_without_space.
Qed.

Lemma getProperty_index_miss (a : AppSyncApi) key :
  key ∉ objectPrototypeNames →
  dsKeysByResKey a !! normalizeResolverKey key = None →
  getProperty (dsKeysByResKey a) (normalizeResolverKey key) = Undefined.
Proof.
  intros Hkey Hnone. apply getProperty_undefined; [done|].
  intros Hin. apply Hkey. by rewrite <- (normalizeResolverKey_inherited key).
Qed.

(** A key that passes the check of [addResolver] names no property of
    [Object.prototype]. *)
Lemma resolver_key_not_inherited key typeName fieldName :
  split SPACE (normalizeResolverKey key) = [typeName; fieldName] →
  key ∉ objectPrototypeNames.
Proof.
  intros Hsplit Hin. unfold objectPrototypeNames in Hin.
  repeat (apply elem_of_cons in Hin as [->|Hin]; [by vm_compute in Hsplit|]).
  by apply elem_of_nil in Hin.
Qed.

(** C3, as amended. [getFunction] and [getDataSource] return the entry
    stored under the key itself when there is one, and for a key without
    entry that names a property of [Object.prototype], that property.  Any
    other key is normalized and looked up in the index, and the registry is
    read under the bound key [K]: its entry, or nothing when [K] has none
    and names no property of [Object.prototype].  A resolver key that is not
    itself a key of the registry therefore resolves to the handle of the
    registered key [K] it is bound to, and so do two such resolver keys
    bound to the same [K].  When neither the key nor its normalized form is
    found, and no entry is stored under ["undefined"], the result is
    empty. *)
Theorem getFunction_getDataSource_two_hop (a : AppSyncApi) (key key2 K : jsstring) :
  (∀ fn, functionsByDsKey a !! key = Some fn → getFunction a key = Own fn)
  ∧ (∀ ds, dataSourcesByDsKey a !! key = Some ds → getDataSource a key = Own ds)
  ∧ (key ∈ objectPrototypeNames →
       (functionsByDsKey a !! key = None → getFunction a key = Inherited key)
       ∧ (dataSourcesByDsKey a !! key = None → getDataSource a key = Inherited key))
  ∧ (key ∉ objectPrototypeNames →
     dsKeysByResKey a !! normalizeResolverKey key = Some K →
       (functionsByDsKey a !! key = None →
          getFunction a key = getProperty (functionsByDsKey a) K)
       ∧ (dataSourcesByDsKey a !! key = None →
            getDataSource a key = getProperty (dataSourcesByDsKey a) K)
       ∧ (functionsByDsKey a !! key = None → is_Some (functionsByDsKey a !! K) →
            getFunction a key = getFunction a K)
       ∧ (dataSourcesByDsKey a !! key = None → is_Some (dataSourcesByDsKey a !! K) →
            getDataSource a key = getDataSource a K)
       ∧ (K ∉ objectPrototypeNames →
            (functionsByDsKey a !! key = None → functionsByDsKey a !! K = None →
               getFunction a key = Undefined)
            ∧ (dataSourcesByDsKey a !! key = None → dataSourcesByDsKey a !! K = None →
                 getDataSource a key = Undefined))
       ∧ (key2 ∉ objectPrototypeNames →
          dsKeysByResKey a !! normalizeResolverKey key2 = Some K →
            (functionsByDsKey a !! key = None → functionsByDsKey a !! key2 = None →
               getFunction a key = getFunction a key2)
            ∧ (dataSourcesByDsKey a !! key = None → dataSourcesByDsKey a !! key2 = None →
                 getDataSource a key = getDataSource a key2)))
  ∧ (key ∉ objectPrototypeNames →
     dsKeysByResKey a !! normalizeResolverKey key = None →
       (functionsByDsKey a !! key = None →
          functionsByDsKey a !! js "undefined" = None → getFunction a key = Undefined)
       ∧ (dataSourcesByDsKey a !! key = None →
            dataSourcesByDsKey a !! js "undefined" = None →
            getDataSource a key = Undefined)).
Proof.
  unfold getFunction, getDataSource.
  split; [intros fn H; by rewrite (getProperty_own _ _ _ H)|].
  split; [intros ds H; by rewrite (getProperty_own _ _ _ H)|].
  split; [intros Hkey; split; intros H; by rewrite (getProperty_inherited _ _ H Hkey)|].
  split.
  - intros Hkey HK. rewrite (getProperty_own _ _ _ HK). simpl.
    split; [intros H; by rewrite (getProperty_undefined _ _ H Hkey)|].
    split; [intros H; by rewrite (getProperty_undefined _ _ H Hkey)|].
    split; [intros H [fn Hfn];
            by rewrite (getProperty_undefined _ _ H Hkey), (getProperty_own _ _ _ Hfn)|].
    split; [intros H [ds Hds];
            by rewrite (getProperty_undefined _ _ H Hkey), (getProperty_own _ _ _ Hds)|].
    split.
    + intros HKn. split; intros H H'.
      * by rewrite (getProperty_undefined _ _ H Hkey), (getProperty_undefined _ _ H' HKn).
      * by rewrite (getProperty_undefined _ _ H Hkey), (getProperty_undefined _ _ H' HKn).
    + intros Hkey2 HK2. rewrite (getProperty_own _ _ _ HK2). simpl.
      split; intros H H'.
      * by rewrite (getProperty_undefined _ _ H Hkey), (getProperty_undefined _ _ H' Hkey2).
      * by rewrite (getProperty_undefined _ _ H Hkey), (getProperty_undefined _ _ H' Hkey2).
  - intros Hkey Hnone. rewrite (getProperty_index_miss _ _ Hkey Hnone). simpl.
    assert (Hu : js "undefined" ∉ objectPrototypeNames).
    { apply (bool_decide_unpack _). vm_compute. exact I. }
    split; intros H H'.
    + by rewrite (getProperty_undefined _ _ H Hkey), (getProperty_undefined _ _ H' Hu).
    + by rewrite (getProperty_undefined _ _ H Hkey), (getProperty_undefined _ _ H' Hu).
Qed.

Lemma getFunction_getDataSource_two_hop_witness :
  getFunction (this notesResolversState) (js "Query listNotes")
  = getFunction (this notesResolversState) (js "notesDS")
  ∧ getDataSource (this notesResolversState) (js "Query listNotes")
    = getDataSource (this notesResolversState) (js "notesDS")
  ∧ getFunction (this notesResolversState) (js "Query listNotes")
    = getFunction (this notesResolversState) (js "Mutation   createNote")
  ∧ getDataSource (this notesResolversState) (js "Query listNotes")
    = getDataSource (this notesResolversState) (js "Mutation   createNote").
Proof.
  destruct (getFunction_getDataSource_two_hop (this notesResolversState)
              (js "Query listNotes") (js "Mutation   createNote") (js "notesDS"))
    as (_ & _ & _ & Hbound & _).
  destruct Hbound as (_ & _ & Hfn & Hds & _ & Hsame);
    [apply (bool_decide_unpack _); vm_compute; exact I | vm_compute; reflexivity|].
  destruct Hsame as [Hfn2 Hds2];
    [apply (bool_decide_unpack _); vm_compute; exact I | vm_compute; reflexivity|].
  split; [apply Hfn; [vm_compute; reflexivity | eexists; vm_compute; reflexivity]|].
  split; [apply Hds; [vm_compute; reflexivity | eexists; vm_compute; reflexivity]|].
  split; [apply Hfn2; vm_compute; reflexivity | apply Hds2; vm_compute; reflexivity].
Defined.

Example getFunction_notes :
  getFunction (this notesResolversState) (js "Query listNotes") = Own 1%nat
  ∧ getFunction (this notesResolversState) (js "notesDS") = Own 1%nat
  ∧ getFunction (this notesResolversState) (js "Mutation createNote") = Own 1%nat
  ∧ getFunction (this notesResolversState) (js "Query getNote") = Undefined.
Proof. repeat split; vm_compute; reflexivity. Qed.

(** C3, as stated, fails: a resolver key that is also the key of a data
    source resolves to that data source, not to the one the resolver is
    bound to. *)
Lemma getFunction_resolver_key_shadowed :
  dsKeysByResKey (this shadowState) !! js "Query listNotes" = Some (js "notesDS")
  ∧ getFunction (this shadowState) (js "Query listNotes") = Own 1%nat
  ∧ getFunction (this shadowState) (js "notesDS") = Own 3%nat
  ∧ getFunction (this shadowState) (js "Query listNotes")
    ≠ getFunction (this shadowState) (js "notesDS")
  ∧ getDataSource (this shadowState) (js "Query listNotes")
    ≠ getDataSource (this shadowState) (js "notesDS").
Proof. repeat split; vm_compute; try reflexivity; discriminate. Qed.

(** A key found neither in the registry nor in the index is looked up as
    ["undefined"]. *)
Example getFunction_undefined_key :
  functionsByDsKey (this undefinedState) !! js "Query listNotes" = None
  ∧ dsKeysByResKey (this undefinedState) !! js "Query listNotes" = None
  ∧ getFunction (this undefinedState) (js "Query listNotes") = Own 1%nat
  ∧ getDataSource (this undefinedState) (js "Query listNotes") = Own 2%nat.
Proof. repeat split; vm_compute; reflexivity. Qed.

(** With nothing registered, the name of a property of [Object.prototype]
    leads to that property, by the first lookup or by the second. *)
Example getFunction_inherited_key :
  getFunction (emptyApi noProps) (js "constructor") = Inherited (js "constructor")
  ∧ getDataSource (emptyApi noProps) (js "toString") = Inherited (js "toString")
  ∧ getResolver (emptyApi noProps) (js "valueOf") = Inherited (js "valueOf")
  ∧ getFunction (emptyApi noProps) (js "Query listNotes") = Undefined
  ∧ ∀ w, getFunction
           (this (snd (addResolver treeProvider 0%nat (js "Query listNotes")
                         (RVProps constructorResolver)
                         {| this := emptyApi noProps; world := w; attached := ∅ |})))
           (js "Query listNotes")
         = Inherited (js "constructor").
Proof.
  split; [vm_compute; reflexivity|]. split; [vm_compute; reflexivity|].
  split; [vm_compute; reflexivity|]. split; [vm_compute; reflexivity|].
  intros w. unfold addResolver; simpl. unfold bindResolver, bind, getThis, ext; simpl.
  unfold newChild. by case_bool_decide.
Qed.

(** ** Grants and batches *)

Lemma grantsOf_withGrant {World} (st : State World) fn p g :
  grantsOf (withGrant st fn p) g
  = if decide (fn = g) then grantsOf st g ++ [p] else grantsOf st g.
Proof.
  unfold grantsOf at 1. simpl. destruct (decide (fn = g)) as [->|Hne].
  - by rewrite lookup_insert_eq.
  - by rewrite lookup_insert_ne.
Qed.

(** Replaying a list of permissions to one function. *)
Lemma forEach_replay {World} fn (ps : list Permissions) (st : State World) :
  ∃ st', forEach ps (λ permissions, fnAttachPermissions fn permissions) st
         = (Normal tt, st')
    ∧ this st' = this st ∧ world st' = world st
    ∧ ∀ g, grantsOf st' g
           = if decide (fn = g) then grantsOf st g ++ ps else grantsOf st g.
Proof.
  revert st; induction ps as [|p ps IH]; intros st.
  - exists st. repeat split; try done.
    intros g. destruct (decide (fn = g)); by rewrite ?app_nil_r.
  - destruct (IH (withGrant st fn p)) as (st' & Hrun & Hthis & Hworld & Hg).
    exists st'. split; [|split; [done|split; [done|]]].
    + simpl. unfold bind. simpl. exact Hrun.
    + intros g. rewrite Hg, grantsOf_withGrant.
      destruct (decide (fn = g)); [|done]. by rewrite <- app_assoc.
Qed.

(** Granting one permission to each function of a list. *)
Lemma forEach_grant {World} p (fns : list Fn) (st : State World) :
  ∃ st', forEach fns (λ fn, fnAttachPermissions fn p) st = (Normal tt, st')
    ∧ this st' = this st ∧ world st' = world st
    ∧ ∀ g, ∃ n, grantsOf st' g = grantsOf st g ++ replicate n p
                ∧ (g ∈ fns → 1 ≤ n)%nat.
Proof.
  revert st; induction fns as [|fn fns IH]; intros st.
  - exists st. repeat split; try done.
    intros g. exists 0%nat. simpl. rewrite app_nil_r. split; [done|].
    intros H. by apply elem_of_nil in H.
  - destruct (IH (withGrant st fn p)) as (st' & Hrun & Hthis & Hworld & Hg).
    exists st'. split; [|split; [done|split; [done|]]].
    + simpl. unfold bind. simpl. exact Hrun.
    + intros g. destruct (Hg g) as (n & Hn & Hin).
      rewrite grantsOf_withGrant in Hn.
      destruct (decide (fn = g)) as [->|Hne].
      * exists (S n). split; [|lia]. rewrite Hn. by rewrite <- app_assoc.
      * exists n. split; [done|]. intros [?|?]%elem_of_cons; [congruence|auto].
Qed.

Lemma attachExisting_spec {World} fn (st : State World) :
  ∃ st', attachExisting fn st = (Normal tt, st')
    ∧ this st' = this st ∧ world st' = world st
    ∧ ∀ g, grantsOf st' g
           = if decide (fn = Some g)
             then grantsOf st g ++ permissionsAttachedForAllFunctions (this st)
             else grantsOf st g.
Proof.
  destruct fn as [fn|]; simpl.
  - destruct (forEach_replay fn (permissionsAttachedForAllFunctions (this st)) st)
      as (st' & Hrun & Hthis & Hworld & Hg).
    exists st'. unfold bind, getThis. simpl. rewrite Hrun.
    repeat split; try done.
    intros g. rewrite Hg. destruct (decide (fn = g)) as [->|Hne].
    + by rewrite decide_True.
    + rewrite decide_False; [done|congruence].
  - exists st. repeat split; try done.
Qed.

Lemma registriesGrow_refl a a' :
  functionsByDsKey a' = functionsByDsKey a →
  dataSourcesByDsKey a' = dataSourcesByDsKey a →
  dsKeysByResKey a' = dsKeysByResKey a →
  resolversByResKey a' = resolversByResKey a →
  registriesGrow a a'.
Proof. unfold registriesGrow. intros -> -> -> ->. by repeat split. Qed.



Lemma dom_insert_grows `{Countable K} {V} (m : gmap K V) k v :
  dom m ⊆ dom (<[k := v]> m).
Proof. rewrite dom_insert. set_solver. Qed.

Lemma addDataSource_outcome {World} (P : Provider World) scope dsKey dsValue
    (st : State World) r st' :
  addDataSource P scope dsKey dsValue st = (r, st') →
  attached st' = attached st
  ∧ sameSettings (this st) (this st')
  ∧ registriesGrow (this st) (this st')
  ∧ match r with
    | Normal lambda =>
        dsKey ∈ dom (dataSourcesByDsKey (this st'))
        ∧ functionsByDsKey (this st')
          = match lambda with
            | Some fn => <[dsKey := fn]> (functionsByDsKey (this st))
            | None => functionsByDsKey (this st)
            end
    | Throw e => this st' = this st
    end.
Proof.
  intros H. pose proof (addDataSource_spec P scope dsKey dsValue st) as Hs.
  destruct r as [lambda|e].
  - eapply wp_normal in Hs; [|exact H].
    destruct Hs as (Ha & (Hk & Hr & Hp & Hd) & [d Hds] & Hfn).
    split; [done|]. split; [by split|]. split.
    + repeat split; rewrite ?Hk, ?Hr, ?Hds, ?Hfn; try done.
      * destruct lambda; [apply dom_insert_grows | done].
      * apply dom_insert_grows.
    + split; [|done]. apply elem_of_dom. rewrite Hds, lookup_insert_eq. eauto.
  - eapply wp_thrown in Hs; [|exact H]. destruct Hs as (Ha & Ht & _).
    rewrite Ht. repeat split; done.
Qed.

Lemma addResolver_outcome {World} (P : Provider World) scope key resValue
    (st : State World) r st' :
  addResolver P scope key resValue st = (r, st') →
  let resKey := normalizeResolverKey key in
  attached st' = attached st
  ∧ sameSettings (this st) (this st')
  ∧ registriesGrow (this st) (this st')
  ∧ match r with
    | Normal lambda =>
        resKey ∈ dom (resolversByResKey (this st'))
        ∧ resKey ∈ dom (dsKeysByResKey (this st'))
        ∧ match lambda with
          | Some fn =>
              ∃ k, functionsByDsKey (this st')
                   = <[k := fn]> (functionsByDsKey (this st))
          | None => functionsByDsKey (this st') = functionsByDsKey (this st)
          end
    | Throw e =>
        resolversByResKey (this st') = resolversByResKey (this st)
        ∧ (this st' = this st
           ∨ (∃ x, e = External x)
             ∧ ∃ k, dsKeysByResKey (this st')
                    = <[resKey := k]> (dsKeysByResKey (this st))
                 ∧ ((functionsByDsKey (this st') = functionsByDsKey (this st)
                     ∧ dataSourcesByDsKey (this st') = dataSourcesByDsKey (this st))
                    ∨ ∃ fn dataSource,
                        functionsByDsKey (this st')
                        = <[k := fn]> (functionsByDsKey (this st))
                        ∧ dataSourcesByDsKey (this st')
                          = <[k := dataSource]> (dataSourcesByDsKey (this st))))
    end.
Proof.
  intros H resKey. unfold addResolver in H. fold resKey in H.
  assert (Hsame : (r, st') = (Throw (InvalidResolver resKey), st) ∨
                  (r, st') = (Throw (InvalidField resKey), st) →
          attached st' = attached st
          ∧ sameSettings (this st) (this st')
          ∧ registriesGrow (this st) (this st')
          ∧ match r with
            | Normal _ => False
            | Throw e => resolversByResKey (this st') = resolversByResKey (this st)
                         ∧ this st' = this st
            end).
  { intros [[= -> ->]|[= -> ->]]; repeat split; done. }
  destruct (split SPACE resKey) as [|t [|f [|x l]]] eqn:Hsplit;
    [| |destruct f as [|c f]|].
  1,2,3,5: destruct Hsame as (?&?&?&Hr); [by (left + right)|];
           destruct r; [done|]; destruct Hr; auto 6.
  clear Hsame.
  pose proof (bindResolver_spec P scope resKey t (c :: f) resValue st) as Hs.
  destruct r as [lambda|e].
  - eapply wp_normal in Hs; [|exact H].
    destruct Hs as (Ha & Hset & k & res & Hk & Hr & Hl).
    split; [done|]. split; [done|].
    assert (Hfd : dom (functionsByDsKey (this st)) ⊆ dom (functionsByDsKey (this st'))
                  ∧ dom (dataSourcesByDsKey (this st))
                    ⊆ dom (dataSourcesByDsKey (this st'))).
    { destruct lambda as [fn|].
      - destruct Hl as (_ & -> & d & ->). split; apply dom_insert_grows.
      - destruct Hl as [-> ->]. done. }
    split; [|split; [|split]].
    + destruct Hfd. repeat split; try done; rewrite ?Hk, ?Hr; apply dom_insert_grows.
    + apply elem_of_dom. rewrite Hr, lookup_insert_eq. eauto.
    + apply elem_of_dom. rewrite Hk, lookup_insert_eq. eauto.
    + destruct lambda as [fn|]; [|tauto]. destruct Hl as (_ & Hfn & _). eauto.
  - eapply wp_thrown in Hs; [|exact H].
    destruct Hs as (Ha & Hset & _ & Hr & Hcase).
    split; [done|]. split; [done|]. split.
    + destruct Hcase as [->|(_ & k & Hk & [[Hf Hd]|(fn & d & _ & Hf & Hd)])].
      * by apply registriesGrow_refl.
      * repeat split; rewrite ?Hf, ?Hd, ?Hr, ?Hk; try done. apply dom_insert_grows.
      * repeat split; rewrite ?Hf, ?Hd, ?Hr, ?Hk; try done; apply dom_insert_grows.
    + split; [done|].
      destruct Hcase as [->|(Hx & k & Hk & [[Hf Hd]|(fn & d & _ & Hf & Hd)])];
        [by left|right..]; (split; [done|]); exists k; (split; [done|]); eauto.
Qed.

(** A registration followed by the replay of the retained grants. *)
Lemma bind_attachExisting {World} (m : M World (option Fn)) (st : State World) r st' :
  (fn <- m ;; attachExisting fn) st = (r, st') →
  match r with
  | Normal _ =>
      ∃ lambda st1,
        m st = (Normal lambda, st1)
        ∧ this st' = this st1 ∧ world st' = world st1
        ∧ ∀ g, grantsOf st' g
               = if decide (lambda = Some g)
                 then grantsOf st1 g ++ permissionsAttachedForAllFunctions (this st1)
                 else grantsOf st1 g
  | Throw e => m st = (Throw e, st')
  end.
Proof.
  unfold bind. destruct (m st) as [[lambda|e] st1] eqn:Hm.
  - destruct (attachExisting_spec lambda st1) as (st2 & Hrun & Hthis & Hworld & Hg).
    rewrite Hrun. intros [= <- <-]. by exists lambda, st1.
  - by intros [= <- <-].
Qed.





Example invalidBatch_runs :
  let result := addResolvers treeProvider 0%nat invalidBatch twoSourcesState in
  fst result = Throw (InvalidResolver (js "Query"))
  ∧ getResolver (this (snd result)) (js "Query listNotes") = Own 5%nat
  ∧ getDataSource (this (snd result)) (js "Query listNotes") = Own 2%nat
  ∧ getResolver (this (snd result)) (js "Query getNote") = Undefined.
Proof. repeat split; vm_compute; reflexivity. Qed.


(** ** Global grants *)





(** A global grant reaches at once every function in the registry, and is
    retained. *)
Lemma attachPermissions_grants {World} p (st : State World) :
  ∃ st', attachPermissions p st = (Normal tt, st')
    ∧ permissionsAttachedForAllFunctions (this st')
      = permissionsAttachedForAllFunctions (this st) ++ [p]
    ∧ functionsByDsKey (this st') = functionsByDsKey (this st)
    ∧ (∀ g, ∃ n, grantsOf st' g = grantsOf st g ++ replicate n p
                 ∧ ((∃ k, functionsByDsKey (this st) !! k = Some g) → 1 ≤ n)%nat).
Proof.
  destruct (forEach_grant p (map snd (map_to_list (functionsByDsKey (this st)))) st)
    as (st1 & Hrun & Hthis & Hworld & Hg).
  exists (withThis st1 (setPermissionsAttached
                          (permissionsAttachedForAllFunctions (this st1) ++ [p])
                          (this st1))).
  split; [|split; [|split]].
  - unfold attachPermissions, bind, getThis. simpl. by rewrite Hrun.
  - simpl. by rewrite Hthis.
  - simpl. by rewrite Hthis.
  - intros g. destruct (Hg g) as (n & Hn & Hin). exists n. split; [done|].
    intros [k Hk]. apply Hin. apply list_elem_of_In.
    change g with (snd (k, g)). apply in_map. apply list_elem_of_In.
    by apply elem_of_map_to_list.
Qed.



Lemma construct_spec {World} (P : Provider World) self props (st : State World) :
  wp (construct P self props) st
    (λ _ st', attached st' = attached st
              ∧ permissionsAttachedForAllFunctions (this st')
                = permissionsAttachedForAllFunctions (this st))
    (λ _ st', attached st' = attached st
              ∧ permissionsAttachedForAllFunctions (this st')
                = permissionsAttachedForAllFunctions (this st)).
Proof.
  set (I := λ st' : State World,
         attached st' = attached st
         ∧ permissionsAttachedForAllFunctions (this st')
           = permissionsAttachedForAllFunctions (this st)).
  assert (Hds : ∀ l st1, I st1 →
            wp (forEach l (λ entry : jsstring * DataSourceValue,
                  addDataSource P self (fst entry) (snd entry) ;;; ret tt)) st1
               (λ _ st2, I st2) (λ _ st2, I st2)).
  { intros l st1 HI. apply wp_forEach; [done|].
    intros x st2 _ [Ha HR]. apply wp_bind. apply wp_intro.
    - intros lambda st3 H. apply wp_ret.
      apply addDataSource_outcome in H as (Ha' & [HR' _] & _). split; congruence.
    - intros e st3 H.
      apply addDataSource_outcome in H as (Ha' & [HR' _] & _). split; congruence. }
  assert (Hres : ∀ l st1, I st1 →
            wp (forEach l (λ entry : jsstring * ResolverValue,
                  addResolver P self (fst entry) (snd entry) ;;; ret tt)) st1
               (λ _ st2, I st2) (λ _ st2, I st2)).
  { intros l st1 HI. apply wp_forEach; [done|].
    intros x st2 _ [Ha HR]. apply wp_bind. apply wp_intro.
    - intros lambda st3 H. apply wp_ret.
      apply addResolver_outcome in H as (Ha' & [HR' _] & _). split; congruence.
    - intros e st3 H.
      apply addResolver_outcome in H as (Ha' & [HR' _] & _). split; congruence. }
  unfold construct. apply wp_bind.
  assert (HI : I st) by done.
  eapply wp_mono with (N := λ _ st1, I st1) (T := λ _ st1, I st1);
    [destruct (props_dataSources props); [by apply Hds | by apply wp_ret]| |done].
  intros _ st1 HI1. simpl.
  destruct (props_resolvers props); [by apply Hres | by apply wp_ret].
Qed.



(** A targeted grant needs a function behind the key: an HTTP data source
    has none. *)
Example attachPermissionsToDataSource_http :
  let st := snd (addDataSources treeProvider 0%nat
                   [(js "httpDS", httpDataSource "https://example.com")] notesState) in
  fst (attachPermissionsToDataSource (js "httpDS") 7%nat st)
  = Throw (FunctionDoesNotExist (js "httpDS"))
  ∧ fst (attachPermissionsToDataSource (js "notesDS") 7%nat st) = Normal tt
  ∧ grantsOf (snd (attachPermissionsToDataSource (js "notesDS") 7%nat st)) 1%nat
    = [7%nat].
Proof. repeat split; vm_compute; reflexivity. Qed.

(** ** Keys that are already in the data-source registry *)

(** With a provider that refuses a second construct of the same id, a data
    source under a key of the registry throws the error of the provider and
    the entry stays. *)
Example addDataSources_duplicate_refused :
  let second := addDataSources treeProvider 0%nat
                  [(js "notesDS", DSInline (handler "src/other.main"))] notesState in
  fst second
  = Throw (External (js "There is already a Construct with name Lambda_notesDS"))
  ∧ this (snd second) = this notesState.
Proof. split; vm_compute; reflexivity. Qed.

Lemma entriesKept_refl a a' :
  dataSourcesByDsKey a' = dataSourcesByDsKey a →
  functionsByDsKey a' = functionsByDsKey a →
  entriesKept a a'.
Proof. unfold entriesKept. by intros -> ->. Qed.

Lemma entriesKept_trans a b c : entriesKept a b → entriesKept b c → entriesKept a c.
Proof. unfold entriesKept. intros [H1 H2] [H3 H4]. split; eauto. Qed.

Lemma treeProvider_ids : ConstructIds treeProvider treeIds.
Proof.
  assert (Hmake : ∀ id, makesId treeIds id (newChild 0%nat id)).
  { intros id w a w'. unfold newChild, treeIds. case_bool_decide as Hin; [done|].
    intros [= <- <-]. simpl. split; [tauto | left]. }
  assert (Hkeep : ∀ scope id, keepsIds treeIds (newChild scope id)).
  { intros scope id w r w'. unfold newChild, treeIds.
    case_bool_decide; intros [= <- <-]; simpl; [done|]. intros k Hk. by right. }
  split; try (intros; apply Hmake); try (intros; apply Hkeep).
  - intros scope id arg defaults message w r w'. simpl.
    destruct arg as [[| |]| |]; try apply Hkeep.
    destruct defaults; by intros [= <- <-].
  - intros path w r w'. simpl. unfold treeIds.
    case_bool_decide; by intros [= <- <-].
  - intros s w r w'. simpl. unfold treeIds. by intros [= <- <-].
Qed.

Section ConstructTree.
Context {World : Type} (P : Provider World) (ids : World → jsstring → Prop).
Context (Hids : ConstructIds P ids).

Lemma registered_registryInTree k (st st' : State World) :
  registryInTree ids st → registered ids k st st' →
  registryInTree ids st' ∧ entriesKept (this st) (this st').
Proof.
  intros Hinv [Hgrow [[Hds Hfn]|(Hnew & Hk & [d Hds] & Hfn)]].
  - split; [|by apply entriesKept_refl].
    intros x Hx. rewrite Hds, Hfn in Hx. by apply Hgrow, Hinv.
  - assert (Hout : dataSourcesByDsKey (this st) !! k = None
                   ∧ functionsByDsKey (this st) !! k = None).
    { split; apply not_elem_of_dom; intros Hin; apply Hnew, Hinv; [by left | by right]. }
    split.
    + intros x Hx. destruct (decide (x = k)) as [->|Hne]; [done|].
      apply Hgrow, Hinv. rewrite Hds in Hx.
      destruct Hfn as [Hfn|[fn Hfn]]; rewrite Hfn in Hx;
        rewrite ?dom_insert, ?elem_of_union, ?elem_of_singleton in Hx; tauto.
    + split.
      * intros x v Hx. rewrite Hds.
        rewrite lookup_insert_ne; [done|]. intros <-. destruct Hout; congruence.
      * intros x v Hx. destruct Hfn as [Hfn|[fn Hfn]]; rewrite Hfn; [done|].
        rewrite lookup_insert_ne; [done|]. intros <-. destruct Hout; congruence.
Qed.

Lemma keeps_fact {A} (c : Ext World A) w r w' :
  keepsIds ids c → c w = (r, w') → ∀ id, ids w id → ids w' id.
Proof. intros H Hc. by apply (H w r w'). Qed.

Lemma makes_fact {A} (c : Ext World A) id w a w' :
  makesId ids id c → c w = (inr a, w') → ¬ ids w id ∧ ids w' id.
Proof. intros H Hc. by apply (H w a w'). Qed.

Ltac ids_facts :=
  repeat match goal with
  | H : addLambdaDataSource _ _ _ _ _ = (inr _, _) |- _ =>
      pose proof (makes_fact _ _ _ _ _ (makes_lambda _ _ Hids _ _ _) H) as [? ?];
      pose proof (keeps_fact _ _ _ _ (keeps_lambda _ _ Hids _ _ _) H); clear H
  | H : addDynamoDbDataSource _ _ _ _ _ = (inr _, _) |- _ =>
      pose proof (makes_fact _ _ _ _ _ (makes_dynamoDb _ _ Hids _ _ _) H) as [? ?];
      pose proof (keeps_fact _ _ _ _ (keeps_dynamoDb _ _ Hids _ _ _) H); clear H
  | H : addRdsDataSource _ _ _ _ _ _ _ = (inr _, _) |- _ =>
      pose proof (makes_fact _ _ _ _ _ (makes_rds _ _ Hids _ _ _ _ _) H) as [? ?];
      pose proof (keeps_fact _ _ _ _ (keeps_rds _ _ Hids _ _ _ _ _) H); clear H
  | H : addHttpDataSource _ _ _ _ _ = (inr _, _) |- _ =>
      pose proof (makes_fact _ _ _ _ _ (makes_http _ _ Hids _ _ _) H) as [? ?];
      pose proof (keeps_fact _ _ _ _ (keeps_http _ _ Hids _ _ _) H); clear H
  | H : addLambdaDataSource _ _ _ _ _ = _ |- _ =>
      pose proof (keeps_fact _ _ _ _ (keeps_lambda _ _ Hids _ _ _) H); clear H
  | H : addDynamoDbDataSource _ _ _ _ _ = _ |- _ =>
      pose proof (keeps_fact _ _ _ _ (keeps_dynamoDb _ _ Hids _ _ _) H); clear H
  | H : addRdsDataSource _ _ _ _ _ _ _ = _ |- _ =>
      pose proof (keeps_fact _ _ _ _ (keeps_rds _ _ Hids _ _ _ _ _) H); clear H
  | H : addHttpDataSource _ _ _ _ _ = _ |- _ =>
      pose proof (keeps_fact _ _ _ _ (keeps_http _ _ Hids _ _ _) H); clear H
  | H : fromDefinition _ _ _ _ _ _ _ = _ |- _ =>
      pose proof (keeps_fact _ _ _ _ (keeps_fromDefinition _ _ Hids _ _ _ _ _) H); clear H
  | H : createResolver _ _ _ = _ |- _ =>
      pose proof (keeps_fact _ _ _ _ (keeps_createResolver _ _ Hids _) H); clear H
  | H : fromFile _ _ _ = _ |- _ =>
      pose proof (keeps_fact _ _ _ _ (keeps_fromFile _ _ Hids _) H); clear H
  | H : fromString _ _ _ = _ |- _ =>
      pose proof (keeps_fact _ _ _ _ (keeps_fromString _ _ Hids _) H); clear H
  end.

(** [addDataSource] returns only after one of the four [add*DataSource]
    made a child named by the key. *)
Lemma addDataSource_registered scope dsKey dsValue (st : State World) :
  wp (addDataSource P scope dsKey dsValue) st
    (λ _ st', ¬ ids (world st) dsKey ∧ registered ids dsKey st st')
    (λ e st', (∀ id, ids (world st) id → ids (world st') id)
              ∧ this st' = this st ∧ ∃ x, e = External x).
Proof.
  unfold addDataSource, registered. wp_run; ids_facts.
  all: try (split; [naive_solver|]; split; [reflexivity|by eexists]).
  all: split; [naive_solver|]; split; [naive_solver|].
  all: right; split; [naive_solver|]; split; [naive_solver|].
  all: split; [by eexists|]; first [by left | right; by eexists].
Qed.

Lemma bindResolver_registered scope resKey typeName fieldName resValue
    (st : State World) :
  wp (bindResolver P scope resKey typeName fieldName resValue) st
    (λ _ st', registered ids (buildDataSourceKey typeName fieldName) st st')
    (λ _ st', registered ids (buildDataSourceKey typeName fieldName) st st').
Proof.
  unfold bindResolver, buildMappingTemplate, registered.
  wp_run; ids_facts.
  all: split; [naive_solver|].
  all: first [ left; split; reflexivity
             | right; split; [naive_solver|]; split; [naive_solver|];
               split; [by eexists|]; right; by eexists ].
Qed.

Lemma addResolver_registered scope key resValue (st : State World) :
  registryInTree ids st →
  wp (addResolver P scope key resValue) st
    (λ _ st', registryInTree ids st' ∧ entriesKept (this st) (this st'))
    (λ _ st', registryInTree ids st' ∧ entriesKept (this st) (this st')).
Proof.
  intros Hinv. unfold addResolver.
  destruct (split SPACE (normalizeResolverKey key)) as [|t [|f [|x l]]];
    [| |destruct f|]; try (split; [done | by apply entriesKept_refl]).
  eapply wp_mono; [apply bindResolver_registered| |];
    intros ? st'; by apply registered_registryInTree.
Qed.

Lemma attachExisting_same fn (st : State World) N T :
  (∀ st', this st' = this st → world st' = world st → N tt st') →
  wp (attachExisting fn) st N T.
Proof.
  intros HN. destruct (attachExisting_spec fn st) as (st' & Hrun & Hthis & Hworld & _).
  unfold wp. rewrite Hrun. by apply HN.
Qed.

Lemma registryInTree_same (st st' : State World) :
  this st' = this st → world st' = world st →
  registryInTree ids st → registryInTree ids st'.
Proof. unfold registryInTree. by intros -> ->. Qed.

(** A batch of data sources keeps the entries, and throws at an entry whose
    key is in the registry when its turn comes. *)
Lemma addDataSources_registered scope dataSources (st : State World) :
  registryInTree ids st →
  wp (addDataSources P scope dataSources) st
    (λ _ st', (registryInTree ids st' ∧ entriesKept (this st) (this st'))
              ∧ ∀ entry, entry ∈ dataSources →
                         fst entry ∉ dom (dataSourcesByDsKey (this st)))
    (λ e st', (registryInTree ids st' ∧ entriesKept (this st) (this st'))
              ∧ ∃ x, e = External x).
Proof.
  unfold addDataSources. revert st.
  induction dataSources as [|entry l IH]; intros st Hinv; simpl.
  - split; [split; [done | by apply entriesKept_refl]|].
    intros entry Hin. by apply elem_of_nil in Hin.
  - apply wp_bind, wp_bind.
    eapply wp_mono; [apply addDataSource_registered| |].
    + intros fn st1 [Hnew Hreg]. simpl.
      destruct (registered_registryInTree _ _ _ Hinv Hreg) as [Hinv1 Hkept1].
      apply attachExisting_same. intros st2 Hthis Hworld.
      assert (Hinv2 : registryInTree ids st2) by by eapply registryInTree_same.
      eapply wp_mono; [apply (IH st2 Hinv2)| |].
      * intros [] st' [[Hinv' Hkept'] Hl]. rewrite Hthis in Hkept', Hl.
        split; [split; [done | by eapply entriesKept_trans]|].
        intros entry' [->|Hin]%elem_of_cons.
        -- intros Hin. apply Hnew, Hinv. by left.
        -- intros Hdom. apply (Hl entry' Hin).
           apply elem_of_dom in Hdom as [d Hd]. apply elem_of_dom.
           exists d. by apply Hkept1.
      * intros e st' [[Hinv' Hkept'] Hx]. rewrite Hthis in Hkept'.
        split; [split; [done | by eapply entriesKept_trans]|done].
    + intros e st1 (Hgrow & Hthis & Hx).
      split; [split|done].
      * intros k Hk. rewrite Hthis in Hk. by apply Hgrow, Hinv.
      * rewrite Hthis. by apply entriesKept_refl.
Qed.

Lemma addResolvers_registered scope resolvers (st : State World) :
  registryInTree ids st →
  wp (addResolvers P scope resolvers) st
    (λ _ st', registryInTree ids st' ∧ entriesKept (this st) (this st'))
    (λ _ st', registryInTree ids st' ∧ entriesKept (this st) (this st')).
Proof.
  intros Hinv. unfold addResolvers.
  set (I := λ st' : State World,
              registryInTree ids st' ∧ entriesKept (this st) (this st')).
  apply (wp_forEach I); [split; [done | by apply entriesKept_refl]|].
  intros entry st1 _ [Hinv1 Hkept1]. apply wp_bind.
  eapply wp_mono; [by apply addResolver_registered| |].
  - intros fn st2 [Hinv2 Hkept2]. simpl.
    apply attachExisting_same. intros st3 Hthis Hworld. split.
    + by eapply registryInTree_same.
    + rewrite Hthis. by eapply entriesKept_trans.
  - intros e st2 [Hinv2 Hkept2]. split; [done | by eapply entriesKept_trans].
Qed.

Lemma perform_registered op (st : State World) :
  registryInTree ids st →
  registryInTree ids (snd (perform P op st))
  ∧ entriesKept (this st) (this (snd (perform P op st))).
Proof.
  intros Hinv. destruct op as [[p|scope l|scope l]|key p]; simpl.
  - destruct (attachPermissions_grants p st) as (st' & Hrun & _ & Hfn & _).
    rewrite Hrun. simpl.
    assert (Hsame : dataSourcesByDsKey (this st') = dataSourcesByDsKey (this st)
                    ∧ world st' = world st).
    { revert Hrun. unfold attachPermissions, bind, getThis. simpl.
      destruct (forEach_grant p (map snd (map_to_list (functionsByDsKey (this st)))) st)
        as (st1 & Hrun1 & Hthis & Hworld & _).
      rewrite Hrun1. simpl. intros [= <-]. simpl. by rewrite Hthis. }
    destruct Hsame as [Hds Hworld]. split; [|by apply entriesKept_refl].
    intros k Hk. rewrite Hds, Hfn in Hk. rewrite Hworld. by apply Hinv.
  - pose proof (addDataSources_registered scope l st Hinv) as Hwp.
    unfold wp in Hwp. destruct (addDataSources P scope l st) as [[[]|e] st']; tauto.
  - pose proof (addResolvers_registered scope l st Hinv) as Hwp.
    unfold wp in Hwp. by destruct (addResolvers P scope l st) as [[[]|e] st'].
  - destruct (attachPermissionsToDataSource key p st) as [r st'] eqn:H. simpl.
    assert (Hsame : this st' = this st ∧ world st' = world st).
    { revert H. unfold attachPermissionsToDataSource, bind, getThis. simpl.
      destruct (getFunction (this st) key); by intros [= <- <-]. }
    destruct Hsame as [Hthis Hworld].
    split; [by eapply registryInTree_same | rewrite Hthis; by apply entriesKept_refl].
Qed.

Lemma performAll_registered ops (st : State World) :
  registryInTree ids st → registryInTree ids (performAll P ops st).
Proof.
  unfold performAll. revert st.
  induction ops as [|op ops IH]; intros st Hinv; simpl; [done|].
  apply IH. by apply perform_registered.
Qed.

Lemma newAppSyncApi_registered self props w :
  registryInTree ids (snd (newAppSyncApi P self props w)).
Proof.
  unfold newAppSyncApi, construct.
  set (st0 := {| this := emptyApi props; world := w; attached := ∅ |}).
  assert (Hempty : registryInTree ids st0).
  { intros k [Hk|Hk]; simpl in Hk; rewrite dom_empty_L in Hk;
      by apply elem_of_empty in Hk. }
  assert (Hds : ∀ l st1, registryInTree ids st1 →
            wp (forEach l (λ entry : jsstring * DataSourceValue,
                  addDataSource P self (fst entry) (snd entry) ;;; ret tt)) st1
               (λ _ st2, registryInTree ids st2) (λ _ st2, registryInTree ids st2)).
  { intros l st1 HI. apply (wp_forEach (registryInTree ids)); [done|].
    intros x st2 _ HI2. apply wp_bind.
    eapply wp_mono; [apply addDataSource_registered| |].
    - intros fn st3 [_ Hreg]. simpl.
      by destruct (registered_registryInTree _ _ _ HI2 Hreg).
    - intros e st3 (Hgrow & Hthis & _) k Hk. rewrite Hthis in Hk.
      by apply Hgrow, HI2. }
  assert (Hres : ∀ l st1, registryInTree ids st1 →
            wp (forEach l (λ entry : jsstring * ResolverValue,
                  addResolver P self (fst entry) (snd entry) ;;; ret tt)) st1
               (λ _ st2, registryInTree ids st2) (λ _ st2, registryInTree ids st2)).
  { intros l st1 HI. apply (wp_forEach (registryInTree ids)); [done|].
    intros x st2 _ HI2. apply wp_bind.
    eapply wp_mono; [by apply addResolver_registered| |]; simpl; tauto. }
  assert (Hwp : wp (match props_dataSources props with
                    | Some dataSources =>
                        forEach dataSources (λ entry,
                          addDataSource P self (fst entry) (snd entry) ;;; ret tt)
                    | None => ret tt
                    end ;;;
                    match props_resolvers props with
                    | Some resolvers =>
                        forEach resolvers (λ entry,
                          addResolver P self (fst entry) (snd entry) ;;; ret tt)
                    | None => ret tt
                    end) st0
                 (λ _ st2, registryInTree ids st2) (λ _ st2, registryInTree ids st2)).
  { apply wp_bind.
    eapply wp_mono with (N := λ _ st2, registryInTree ids st2);
      [destruct (props_dataSources props); [by apply Hds | done]| |done].
    intros [] st1 HI. simpl.
    destruct (props_resolvers props); [by apply Hres | done]. }
  unfold wp in Hwp.
  by destruct ((_ ;;; _) st0) as [[[]|e] st'].
Qed.

(** C7. Let the provider keep a construct tree, in which each of the four
    [add*DataSource] makes a child named by its key, no name is given twice
    and no child is removed.  On an object made by the constructor, after
    any public calls: [addDataSource] under a key that is in the data-source
    registry throws the error of the provider and leaves the object as it
    was, and so does an [addDataSources] batch with such an entry, apart
    from what the entries before it registered; and whatever [addDataSource],
    [addResolver] or a public call does, returning or throwing, every entry
    of the data-source registry and of the function registry stays what it
    was. *)
Theorem addDataSource_duplicate_key_refused (self scope : Scope)
    (props : AppSyncApiProps) (w : World) (ops : list Operation) :
  let st := performAll P ops (snd (newAppSyncApi P self props w)) in
  (∀ dsKey dsValue,
     dsKey ∈ dom (dataSourcesByDsKey (this st)) →
     ∃ x st', addDataSource P scope dsKey dsValue st = (Throw (External x), st')
              ∧ this st' = this st)
  ∧ (∀ dataSources dsKey dsValue,
       (dsKey, dsValue) ∈ dataSources →
       dsKey ∈ dom (dataSourcesByDsKey (this st)) →
       ∃ x st', addDataSources P scope dataSources st = (Throw (External x), st')
                ∧ entriesKept (this st) (this st'))
  ∧ (∀ dsKey dsValue r st',
       addDataSource P scope dsKey dsValue st = (r, st') →
       entriesKept (this st) (this st'))
  ∧ (∀ key resValue r st',
       addResolver P scope key resValue st = (r, st') →
       entriesKept (this st) (this st'))
  ∧ (∀ op, entriesKept (this st) (this (snd (perform P op st)))).
Proof.
  intros st.
  assert (Hinv : registryInTree ids st).
  { apply performAll_registered, newAppSyncApi_registered. }
  split; [|split; [|split; [|split]]].
  - intros dsKey dsValue Hin.
    pose proof (addDataSource_registered scope dsKey dsValue st) as Hwp.
    unfold wp in Hwp.
    destruct (addDataSource P scope dsKey dsValue st) as [[fn|e] st'].
    + destruct Hwp as [Hnew _]. exfalso. apply Hnew, Hinv. by left.
    + destruct Hwp as (_ & Hthis & x & ->). by exists x, st'.
  - intros dataSources dsKey dsValue Hentry Hin.
    pose proof (addDataSources_registered scope dataSources st Hinv) as Hwp.
    unfold wp in Hwp.
    destruct (addDataSources P scope dataSources st) as [[[]|e] st'].
    + destruct Hwp as [_ Hl]. exfalso. by apply (Hl _ Hentry).
    + destruct Hwp as [[_ Hkept] [x ->]]. by exists x, st'.
  - intros dsKey dsValue r st' H.
    pose proof (addDataSource_registered scope dsKey dsValue st) as Hwp.
    unfold wp in Hwp. rewrite H in Hwp. destruct r as [fn|e].
    + destruct Hwp as [_ Hreg].
      by destruct (registered_registryInTree _ _ _ Hinv Hreg).
    + destruct Hwp as (_ & Hthis & _). rewrite Hthis. by apply entriesKept_refl.
  - intros key resValue r st' H.
    pose proof (addResolver_registered scope key resValue st Hinv) as Hwp.
    unfold wp in Hwp. rewrite H in Hwp. by destruct r; destruct Hwp.
  - intros op. by apply perform_registered.
Qed.

End ConstructTree.

Lemma addDataSource_duplicate_key_refused_witness :
  js "notesDS" ∈ dom (dataSourcesByDsKey (this notesState))
  ∧ (∃ x st',
       addDataSource treeProvider 0%nat (js "notesDS")
         (httpDataSource "https://example.com") notesState
       = (Throw (External x), st')
       ∧ this st' = this notesState)
  ∧ ∃ x st',
      addDataSources treeProvider 0%nat
        [(js "billingDS", DSInline (handler "src/billing.main"));
         (js "notesDS", httpDataSource "https://example.com")] notesState
      = (Throw (External x), st')
      ∧ entriesKept (this notesState) (this st').
Proof.
  assert (Hin : js "notesDS" ∈ dom (dataSourcesByDsKey (this notesState))).
  { apply elem_of_dom. eexists. vm_compute. reflexivity. }
  destruct (addDataSource_duplicate_key_refused treeProvider treeIds treeProvider_ids
              0%nat 0%nat notesProps templateFiles [])
    as (Hone & Hbatch & _).
  split; [exact Hin|]. split.
  - apply Hone. exact Hin.
  - apply (Hbatch _ (js "notesDS") (httpDataSource "https://example.com")).
    + right. left.
    + exact Hin.
Defined.

(** The duplicate is refused by the tree, at the data source itself. *)
Example addDataSource_duplicate_key_runs :
  let second := addDataSource treeProvider 0%nat (js "notesDS")
                  (httpDataSource "https://example.com") notesState in
  dataSourcesByDsKey (this notesState) !! js "notesDS" = Some 2%nat
  ∧ fst second = Throw (External (js "There is already a Construct with name notesDS"))
  ∧ snd second = notesState.
Proof. repeat split; vm_compute; reflexivity. Qed.

(** * Further properties *)

(** ** Normal forms of resolver keys *)

Lemma collapse_length b s : (length (collapse b s) ≤ length s)%nat.
Proof.
  revert b; induction s as [|c s IH]; intros b; simpl; [lia|].
  destruct (isWhiteSpace c); [destruct b|]; simpl;
    [specialize (IH true) | specialize (IH true) | specialize (IH false)]; lia.
Qed.

Lemma isWhiteSpace_SPACE : isWhiteSpace SPACE = true.
Proof. reflexivity. Qed.

Lemma singleSpaced_collapse b s : singleSpaced b (collapse b s) = true.
Proof.
  revert b; induction s as [|c s IH]; intros b; simpl; [done|].
  destruct (isWhiteSpace c) eqn:Hc.
  - destruct b; [apply IH|].
    change (singleSpaced false (SPACE :: collapse true s))
      with (if isWhiteSpace SPACE
            then negb false && (SPACE =? SPACE) && singleSpaced true (collapse true s)
            else singleSpaced false (collapse true s)).
    rewrite isWhiteSpace_SPACE. simpl. apply IH.
  - simpl. rewrite Hc. apply IH.
Qed.

Lemma collapse_singleSpaced b s : singleSpaced b s = true → collapse b s = s.
Proof.
  revert b; induction s as [|c s IH]; intros b; simpl; [done|].
  destruct (isWhiteSpace c) eqn:Hc.
  - intros H. apply andb_true_iff in H as [H H3]. apply andb_true_iff in H as [H1 H2].
    destruct b; [done|]. apply N.eqb_eq in H2 as ->. by rewrite IH.
  - intros H. by rewrite IH.
Qed.

(** X1. The keys the normalizer leaves as they are, are those in which
    every white-space character is a single space not next to another one,
    and every normalized key is one of them; the normalizer never makes a
    key longer. *)
Theorem normalizeResolverKey_normal_forms (x : jsstring) :
  singleSpaced false (normalizeResolverKey x) = true
  ∧ (normalizeResolverKey x = x ↔ singleSpaced false x = true)
  ∧ (length (normalizeResolverKey x) ≤ length x)%nat.
Proof.
  rewrite normalizeResolverKey_collapse. split; [apply singleSpaced_collapse|].
  split; [|apply collapse_length]. split.
  - intros H. rewrite <- H. apply singleSpaced_collapse.
  - apply collapse_singleSpaced.
Qed.

(** ** The names of a resolver *)

Lemma split_not_nil sep s : split sep s ≠ [].
Proof.
  induction s as [|c s IH]; simpl; [done|].
  destruct (c =? sep); [done|]. destruct (split sep s); done.
Qed.

Lemma join_split sep s : join [sep] (split sep s) = s.
Proof.
  induction s as [|c s IH]; simpl; [done|].
  destruct (N.eqb_spec c sep) as [->|Hne].
  - rewrite join_nil_cons by apply split_not_nil. simpl. by rewrite IH.
  - rewrite join_pushHead by apply split_not_nil. by rewrite IH.
Qed.

Lemma split_tokens sep s : Forall (λ t, sep ∉ t) (split sep s).
Proof.
  induction s as [|c s IH]; simpl.
  - constructor; [apply not_elem_of_nil | constructor].
  - destruct (N.eqb_spec c sep) as [->|Hne].
    + constructor; [apply not_elem_of_nil | done].
    + destruct (split sep s) as [|t ts]; simpl.
      * constructor; [|constructor].
        intros [?|H]%elem_of_cons; [done | by apply elem_of_nil in H].
      * inversion IH as [|? ? Ht Hts]; subst. constructor; [|done].
        intros [?|?]%elem_of_cons; done.
Qed.

Lemma collapse_white_space b s c :
  c ∈ collapse b s → isWhiteSpace c = true → c = SPACE.
Proof.
  revert b; induction s as [|x s IH]; intros b; simpl.
  - intros H. by apply elem_of_nil in H.
  - destruct (isWhiteSpace x) eqn:Hx.
    + destruct b; [apply IH|]. intros [->|H]%elem_of_cons; [done | by eapply IH].
    + intros [->|H]%elem_of_cons; [congruence | by eapply IH].
Qed.

Lemma resolver_key_tokens key typeName fieldName :
  split SPACE (normalizeResolverKey key) = [typeName; fieldName] →
  normalizeResolverKey key = typeName ++ SPACE :: fieldName
  ∧ ∀ c, c ∈ typeName ++ fieldName → isWhiteSpace c = false.
Proof.
  intros Hsplit.
  pose proof (join_split SPACE (normalizeResolverKey key)) as Hjoin.
  pose proof (split_tokens SPACE (normalizeResolverKey key)) as Htok.
  rewrite Hsplit in Hjoin, Htok. simpl in Hjoin.
  split; [done|]. intros c Hc.
  destruct (isWhiteSpace c) eqn:Hw; [|done]. exfalso.
  assert (c = SPACE) as ->.
  { apply (collapse_white_space false key); [|done].
    rewrite <- normalizeResolverKey_collapse, <- Hjoin.
    apply elem_of_app in Hc as [?|?]; apply elem_of_app; [by left|].
    right. by right. }
  inversion Htok as [|? ? Ht Htok']; subst.
  inversion Htok' as [|? ? Hf _]; subst.
  apply elem_of_app in Hc as [?|?]; done.
Qed.

(** X2. Whenever [addResolver] gets past the check of the key, the
    normalized key is the type name, one space and the field name, the field
    name is not empty, and neither name contains a white-space character. *)
Theorem addResolver_names_without_white_space {World} (P : Provider World)
    (scope : Scope) (key : jsstring) (resValue : ResolverValue)
    (st : State World) (r : Completion (option Fn)) (st' : State World) :
  addResolver P scope key resValue st = (r, st') →
  (∀ e, r = Throw e → isInvalidResolverKey e = false) →
  ∃ typeName fieldName,
    normalizeResolverKey key = typeName ++ SPACE :: fieldName
    ∧ fieldName ≠ []
    ∧ (∀ c, c ∈ typeName ++ fieldName → isWhiteSpace c = false)
    ∧ addResolver P scope key resValue st
      = bindResolver P scope (normalizeResolverKey key) typeName fieldName
          resValue st.
Proof.
  intros H Hr. unfold addResolver in *.
  destruct (split SPACE (normalizeResolverKey key)) as [|t [|f [|x l]]] eqn:Hsplit;
    [| |destruct f as [|c f]|].
  1,2,3,5: injection H as <- <-; by specialize (Hr _ eq_refl).
  destruct (resolver_key_tokens key t (c :: f) Hsplit) as [Hkey Hws].
  by exists t, (c :: f).
Qed.

Lemma addResolver_names_without_white_space_witness :
  ∃ typeName fieldName,
    normalizeResolverKey (js "Query    listNotes") = typeName ++ SPACE :: fieldName
    ∧ fieldName ≠ []
    ∧ (∀ c, c ∈ typeName ++ fieldName → isWhiteSpace c = false)
    ∧ addResolver treeProvider 0%nat (js "Query    listNotes")
        (RVInline (handler "notesDS")) notesState
      = bindResolver treeProvider 0%nat (normalizeResolverKey (js "Query    listNotes"))
          typeName fieldName (RVInline (handler "notesDS")) notesState.
Proof.
  apply (addResolver_names_without_white_space treeProvider 0%nat
           (js "Query    listNotes") (RVInline (handler "notesDS")) notesState
           (Normal None)
           (snd (addResolver treeProvider 0%nat (js "Query    listNotes")
                   (RVInline (handler "notesDS")) notesState))).
  - vm_compute. reflexivity.
  - intros e He. discriminate He.
Defined.

(** ** Lookups after a registration *)

Lemma addResolver_writes {World} (P : Provider World) scope key resValue
    (st : State World) lambda st' :
  addResolver P scope key resValue st = (Normal lambda, st') →
  ∃ typeName fieldName dataSourceKey resolver,
    split SPACE (normalizeResolverKey key) = [typeName; fieldName]
    ∧ fieldName ≠ []
    ∧ dsKeysByResKey (this st')
      = <[normalizeResolverKey key := dataSourceKey]> (dsKeysByResKey (this st))
    ∧ resolversByResKey (this st')
      = <[normalizeResolverKey key := resolver]> (resolversByResKey (this st))
    ∧ match lambda with
      | Some fn =>
          dataSourceKey = buildDataSourceKey typeName fieldName
          ∧ functionsByDsKey (this st')
            = <[dataSourceKey := fn]> (functionsByDsKey (this st))
          ∧ ∃ dataSource,
              dataSourcesByDsKey (this st')
              = <[dataSourceKey := dataSource]> (dataSourcesByDsKey (this st))
      | None =>
          functionsByDsKey (this st') = functionsByDsKey (this st)
          ∧ dataSourcesByDsKey (this st') = dataSourcesByDsKey (this st)
      end.
Proof.
  intros H. unfold addResolver in H.
  destruct (split SPACE (normalizeResolverKey key)) as [|t [|f [|x l]]] eqn:Hsplit;
    [done|done|destruct f as [|c f]; [done|]|done].
  pose proof (bindResolver_spec P scope (normalizeResolverKey key) t (c :: f)
                resValue st) as Hs.
  eapply wp_normal in Hs; [|exact H].
  destruct Hs as (_ & _ & k & r & Hk & Hr & Hl).
  by exists t, (c :: f), k, r.
Qed.

(** X3. After an [addResolver] that returned, [getResolver] finds one and
    the same resolver under every spelling of the key, and what it finds
    under keys that normalize differently is what it found before.  After an
    [addResolver] that threw, [getResolver] finds what it found before under
    every key. *)
Theorem getResolver_after_addResolver {World} (P : Provider World)
    (scope : Scope) (key : jsstring) (resValue : ResolverValue)
    (st : State World) (r : Completion (option Fn)) (st' : State World) :
  addResolver P scope key resValue st = (r, st') →
  match r with
  | Normal _ =>
      ∃ resolver,
        (∀ key', normalizeResolverKey key' = normalizeResolverKey key →
           getResolver (this st') key' = Own resolver)
        ∧ (∀ key', normalizeResolverKey key' ≠ normalizeResolverKey key →
             getResolver (this st') key' = getResolver (this st) key')
  | Throw _ => ∀ key', getResolver (this st') key' = getResolver (this st) key'
  end.
Proof.
  intros H. destruct r as [lambda|e].
  - apply addResolver_writes in H as (t & f & k & res & _ & _ & _ & Hr & _).
    exists res. unfold getResolver. rewrite Hr. split.
    + intros key' ->. apply getProperty_own, lookup_insert_eq.
    + intros key' Hne. unfold getProperty. by rewrite lookup_insert_ne.
  - apply addResolver_outcome in H as (_ & _ & _ & Hr & _).
    intros key'. unfold getResolver. by rewrite Hr.
Qed.

Lemma getResolver_after_addResolver_witness :
  ∃ resolver,
    (∀ key', normalizeResolverKey key' = normalizeResolverKey (js "Query  listNotes") →
       getResolver
         (this (snd (addResolver treeProvider 0%nat (js "Query  listNotes")
                       (RVInline (handler "notesDS")) notesState))) key'
       = Own resolver)
    ∧ (∀ key', normalizeResolverKey key' ≠ normalizeResolverKey (js "Query  listNotes") →
         getResolver
           (this (snd (addResolver treeProvider 0%nat (js "Query  listNotes")
                         (RVInline (handler "notesDS")) notesState))) key'
         = getResolver (this notesState) key').
Proof.
  apply (getResolver_after_addResolver treeProvider 0%nat (js "Query  listNotes")
           (RVInline (handler "notesDS")) notesState (Normal None)).
  vm_compute. reflexivity.
Defined.



(** ** Which declarations make a function *)

(** X5. An [addDataSource] that returned made no function exactly when the
    value has no [function] that counts as set (an empty handler string
    does not) and has a table, a cluster or an endpoint that is not the
    empty string; a [function] that is set wins over all of these, and a
    value with none of them is taken as the definition of a function. *)
Theorem addDataSource_function_cases {World} (P : Provider World)
    (scope : Scope) (dsKey : jsstring) (dsValue : DataSourceValue)
    (st : State World) (lambda : option Fn) (st' : State World) :
  addDataSource P scope dsKey dsValue st = (Normal lambda, st') →
  (lambda = None
   ↔ truthyDefinition (ds_function (dsFields dsValue)) = None
     ∧ (is_Some (ds_table (dsFields dsValue))
        ∨ is_Some (ds_cdk_table (dsFields dsValue))
        ∨ is_Some (ds_rds (dsFields dsValue))
        ∨ is_Some (ds_cdk_serverlessCluster (dsFields dsValue))
        ∨ is_Some (truthy (ds_endpoint (dsFields dsValue))))).
Proof.
  intros H.
  refine (wp_normal _ st
            (λ lambda _,
               lambda = None
               ↔ truthyDefinition (ds_function (dsFields dsValue)) = None
                 ∧ (is_Some (ds_table (dsFields dsValue))
                    ∨ is_Some (ds_cdk_table (dsFields dsValue))
                    ∨ is_Some (ds_rds (dsFields dsValue))
                    ∨ is_Some (ds_cdk_serverlessCluster (dsFields dsValue))
                    ∨ is_Some (truthy (ds_endpoint (dsFields dsValue)))))
            (λ _ _, True) lambda st' _ H).
  unfold addDataSource. wp_run; try done.
  all: split; [try discriminate | intros [? Hor]; try discriminate].
  all: try (split; [done|]; eauto 6; fail).
  all: destruct Hor as [[? ?]|[[? ?]|[[? ?]|[[? ?]|[? ?]]]]]; congruence.
Qed.

Lemma addDataSource_function_cases_witness :
  (None : option Fn) = None
  ↔ truthyDefinition (ds_function (dsFields (httpDataSource "https://example.com"))) = None
    ∧ (is_Some (ds_table (dsFields (httpDataSource "https://example.com")))
       ∨ is_Some (ds_cdk_table (dsFields (httpDataSource "https://example.com")))
       ∨ is_Some (ds_rds (dsFields (httpDataSource "https://example.com")))
       ∨ is_Some (ds_cdk_serverlessCluster (dsFields (httpDataSource "https://example.com")))
       ∨ is_Some (truthy (ds_endpoint (dsFields (httpDataSource "https://example.com"))))).
Proof.
  apply (addDataSource_function_cases treeProvider 0%nat (js "httpDS")
           (httpDataSource "https://example.com") notesState None
           (snd (addDataSource treeProvider 0%nat (js "httpDS")
                   (httpDataSource "https://example.com") notesState))).
  vm_compute. reflexivity.
Defined.

(** An endpoint that is the empty string does not count: the object is taken
    as the definition of a function. *)
Example addDataSource_empty_endpoint :
  fst (addDataSource treeProvider 0%nat (js "httpDS") (httpDataSource "") notesState)
  = Normal (Some 3%nat).
Proof. vm_compute. reflexivity. Qed.

Lemma bindResolver_function_cases {World} (P : Provider World) scope resKey
    typeName fieldName resValue (st : State World) :
  wp (bindResolver P scope resKey typeName fieldName resValue) st
    (λ lambda st',
       (lambda = None
        ↔ is_Some (registeredKey (this st) resValue)
          ∨ (isLambdaResolverProps resValue = None
             ∧ is_Some (isDataSourceResolverProps resValue)))
       ∧ (lambda = None →
            ∃ k, dsKeysByResKey (this st') !! resKey = Some k
                 ∧ (registeredKey (this st) resValue = Some k
                    ∨ isDataSourceResolverProps resValue = Some k)))
    (λ _ _, True).
Proof.
  unfold bindResolver, buildMappingTemplate.
  wp_run; try done.
  all: rewrite ?lookup_insert_eq.
  all: split; [split; [try discriminate | intros [[? ?]|[? [? ?]]]; congruence]
              | try discriminate].
  all: try (intros _; eauto; fail).
  all: try (intros _; right; eauto; fail).
  all: intros _; eexists; split; [reflexivity|]; eauto.
Qed.

(** X6. An [addResolver] that returned made no function exactly when the
    value is a string that was a key of the data-source registry, or an
    object with a [dataSource] and no [function]; the resolver is then
    indexed under that string or that [dataSource].  Otherwise, a
    [function] winning over a [dataSource], the function it made is what
    [getFunction] finds under the derived key, which is the key the resolver
    is indexed under, and under the resolver key too unless that is itself a
    key of a function. *)
Theorem addResolver_function_cases {World} (P : Provider World)
    (scope : Scope) (key : jsstring) (resValue : ResolverValue)
    (st : State World) (lambda : option Fn) (st' : State World) :
  addResolver P scope key resValue st = (Normal lambda, st') →
  (lambda = None
   ↔ is_Some (registeredKey (this st) resValue)
     ∨ (isLambdaResolverProps resValue = None
        ∧ is_Some (isDataSourceResolverProps resValue)))
  ∧ (lambda = None →
       ∃ k, dsKeysByResKey (this st') !! normalizeResolverKey key = Some k
            ∧ (registeredKey (this st) resValue = Some k
               ∨ isDataSourceResolverProps resValue = Some k))
  ∧ (∀ fn, lambda = Some fn →
       ∃ typeName fieldName,
         split SPACE (normalizeResolverKey key) = [typeName; fieldName]
         ∧ dsKeysByResKey (this st') !! normalizeResolverKey key
           = Some (buildDataSourceKey typeName fieldName)
         ∧ getFunction (this st') (buildDataSourceKey typeName fieldName) = Own fn
         ∧ (∃ dataSource,
              getDataSource (this st') (buildDataSourceKey typeName fieldName)
              = Own dataSource)
         ∧ (functionsByDsKey (this st') !! key = None →
              getFunction (this st') key = Own fn)).
Proof.
  intros H.
  destruct (addResolver_writes P scope key resValue st lambda st' H)
    as (t & f & k & res & Hsplit & Hf & Hk & Hr & Hl).
  rewrite (addResolver_valid_key P scope key t f) in H by done.
  pose proof (bindResolver_function_cases P scope (normalizeResolverKey key) t f
                resValue st) as Hs.
  eapply wp_normal in Hs; [|exact H]. destruct Hs as [Hiff Hnone].
  split; [done|]. split; [done|].
  intros fn ->. destruct Hl as (-> & Hfn & d & Hd).
  exists t, f. split; [done|]. split; [by rewrite Hk, lookup_insert_eq|].
  split; [|split].
  - unfold getFunction, getProperty. by rewrite Hfn, lookup_insert_eq.
  - unfold getDataSource, getProperty. rewrite Hd, lookup_insert_eq. eauto.
  - intros Hmiss. unfold getFunction.
    rewrite (getProperty_undefined _ _ Hmiss (resolver_key_not_inherited _ _ _ Hsplit)).
    unfold getProperty. rewrite Hk, lookup_insert_eq. simpl.
    by rewrite Hfn, lookup_insert_eq.
Qed.

Lemma addResolver_function_cases_witness :
  let st' := snd (addResolver treeProvider 0%nat (js "Query listNotes")
                    (RVInline (handler "src/list.main")) notesState) in
  ∃ typeName fieldName,
    split SPACE (normalizeResolverKey (js "Query listNotes")) = [typeName; fieldName]
    ∧ dsKeysByResKey (this st') !! normalizeResolverKey (js "Query listNotes")
      = Some (buildDataSourceKey typeName fieldName)
    ∧ getFunction (this st') (buildDataSourceKey typeName fieldName) = Own 3%nat
    ∧ (∃ dataSource,
         getDataSource (this st') (buildDataSourceKey typeName fieldName)
         = Own dataSource)
    ∧ (functionsByDsKey (this st') !! js "Query listNotes" = None →
         getFunction (this st') (js "Query listNotes") = Own 3%nat).
Proof.
  destruct (addResolver_function_cases treeProvider 0%nat (js "Query listNotes")
              (RVInline (handler "src/list.main")) notesState (Some 3%nat)
              (snd (addResolver treeProvider 0%nat (js "Query listNotes")
                      (RVInline (handler "src/list.main")) notesState)))
    as (_ & _ & Hsome); [vm_compute; reflexivity|].
  exact (Hsome 3%nat eq_refl).
Defined.

(** ** Grants, one by one *)

(** X7. A targeted grant under a key for which [getFunction] finds a
    function is handed once to that function and to no other, and it is not
    retained: the object is as before.  Where [getFunction] finds nothing it
    throws the function-does-not-exist error, and where [getFunction] finds
    a property inherited from [Object.prototype] it throws a [TypeError],
    that property having no [attachPermissions]; nothing changes then. *)
Theorem attachPermissionsToDataSource_cases {World} (key : jsstring)
    (permissions : Permissions) (st : State World) (r : Completion unit)
    (st' : State World) :
  attachPermissionsToDataSource key permissions st = (r, st') →
  this st' = this st ∧ world st' = world st
  ∧ (∀ fn, getFunction (this st) key = Own fn →
       r = Normal tt
       ∧ grantsOf st' fn = grantsOf st fn ++ [permissions]
       ∧ ∀ g, g ≠ fn → grantsOf st' g = grantsOf st g)
  ∧ (getFunction (this st) key = Undefined →
       r = Throw (FunctionDoesNotExist key) ∧ st' = st)
  ∧ (∀ name, getFunction (this st) key = Inherited name →
       r = Throw (TypeError (js "fn.attachPermissions is not a function"))
       ∧ st' = st)
  ∧ (r = Normal tt ↔ ∃ fn, getFunction (this st) key = Own fn).
Proof.
  unfold attachPermissionsToDataSource, bind, getThis. simpl.
  destruct (getFunction (this st) key) as [|fn|name] eqn:Hfn.
  - intros [= <- <-]. do 5 (apply conj; [done|]).
    split; [done | by intros [fn ?]].
  - intros [= <- <-]. do 2 (apply conj; [done|]).
    change ({| this := this st; world := world st;
               attached := <[fn := default [] (attached st !! fn) ++ [permissions]]>
                             (attached st) |})
      with (withGrant st fn permissions).
    apply conj; [|do 2 (apply conj; [done|]); split; [by exists fn | done]].
    intros fn' [= <-]. apply conj; [done|]. apply conj.
    + by rewrite grantsOf_withGrant, decide_True.
    + intros g Hne. by rewrite grantsOf_withGrant, decide_False.
  - intros [= <- <-]. do 5 (apply conj; [done|]).
    split; [done | by intros [fn ?]].
Qed.

Lemma attachPermissionsToDataSource_cases_witness :
  grantsOf (snd (attachPermissionsToDataSource (js "notesDS") 7%nat notesState)) 1%nat
  = grantsOf notesState 1%nat ++ [7%nat]
  ∧ ∀ g, g ≠ 1%nat →
      grantsOf (snd (attachPermissionsToDataSource (js "notesDS") 7%nat notesState)) g
      = grantsOf notesState g.
Proof.
  destruct (attachPermissionsToDataSource_cases (js "notesDS") 7%nat notesState
              (Normal tt)
              (snd (attachPermissionsToDataSource (js "notesDS") 7%nat notesState)))
    as (_ & _ & H & _); [vm_compute; reflexivity|].
  apply (H 1%nat). vm_compute. reflexivity.
Defined.

Example attachPermissionsToDataSource_runs :
  attachPermissionsToDataSource (js "billingDS") 7%nat notesState
  = (Throw (FunctionDoesNotExist (js "billingDS")), notesState)
  ∧ attachPermissionsToDataSource (js "constructor") 7%nat notesState
    = (Throw (TypeError (js "fn.attachPermissions is not a function")), notesState)
  ∧ fst (attachPermissionsToDataSource (js "notesDS") 7%nat notesState) = Normal tt.
Proof. repeat split; vm_compute; reflexivity. Qed.

Lemma forEach_grant_count {World} p (fns : list Fn) (st : State World) :
  ∃ st', forEach fns (λ fn, fnAttachPermissions fn p) st = (Normal tt, st')
    ∧ this st' = this st ∧ world st' = world st
    ∧ ∀ g, grantsOf st' g
           = grantsOf st g ++ replicate (length (filter (λ x, x = g) fns)) p.
Proof.
  revert st; induction fns as [|fn fns IH]; intros st.
  - exists st. repeat split; try done. intros g. simpl. by rewrite app_nil_r.
  - destruct (IH (withGrant st fn p)) as (st' & Hrun & Hthis & Hworld & Hg).
    exists st'. split; [|split; [done|split; [done|]]].
    + simpl. unfold bind. simpl. exact Hrun.
    + intros g. rewrite Hg, grantsOf_withGrant, filter_cons.
      destruct (decide (fn = g)) as [->|Hne]; [|done].
      simpl. by rewrite <- app_assoc.
Qed.

Lemma keysOf_zero a fn :
  keysOf a fn = 0%nat ↔ ∀ k, functionsByDsKey a !! k ≠ Some fn.
Proof.
  unfold keysOf. split.
  - intros Hlen k Hk. apply length_zero_iff_nil in Hlen.
    assert (Hin : fn ∈ filter (λ g, g = fn) (map snd (map_to_list (functionsByDsKey a)))).
    { apply list_elem_of_filter. split; [done|]. apply list_elem_of_In.
      change fn with (snd (k, fn)). apply in_map. apply list_elem_of_In.
      by apply elem_of_map_to_list. }
    rewrite Hlen in Hin. by apply elem_of_nil in Hin.
  - intros Hno.
    destruct (filter (λ g, g = fn) (map snd (map_to_list (functionsByDsKey a))))
      as [|g l] eqn:Hfilter; [done|]. exfalso.
    assert (Hin : g ∈ filter (λ g, g = fn) (map snd (map_to_list (functionsByDsKey a))))
      by (rewrite Hfilter; left).
    apply list_elem_of_filter in Hin as [-> Hin].
    apply list_elem_of_In, in_map_iff in Hin as ([k g] & Hg & Hin). simpl in Hg. subst g.
    apply list_elem_of_In, elem_of_map_to_list in Hin. by eapply Hno.
Qed.

(** X8. A global grant never throws and changes nothing of the object but
    the retained list, at the end of which it is put; every function gets it
    once for each key it is stored under, so a function stored under no key
    gets nothing. *)
Theorem attachPermissions_effect {World} (permissions : Permissions)
    (st : State World) :
  ∃ st',
    attachPermissions permissions st = (Normal tt, st')
    ∧ this st'
      = setPermissionsAttached
          (permissionsAttachedForAllFunctions (this st) ++ [permissions]) (this st)
    ∧ world st' = world st
    ∧ ∀ fn,
        grantsOf st' fn
        = grantsOf st fn ++ replicate (keysOf (this st) fn) permissions
        ∧ (keysOf (this st) fn = 0%nat ↔ ∀ k, functionsByDsKey (this st) !! k ≠ Some fn).
Proof.
  destruct (forEach_grant_count permissions
              (map snd (map_to_list (functionsByDsKey (this st)))) st)
    as (st1 & Hrun & Hthis & Hworld & Hg).
  exists (withThis st1 (setPermissionsAttached
                          (permissionsAttachedForAllFunctions (this st1) ++ [permissions])
                          (this st1))).
  split; [|split; [|split]].
  - unfold attachPermissions, bind, getThis. simpl. by rewrite Hrun.
  - simpl. by rewrite Hthis.
  - done.
  - intros fn. split; [apply Hg | apply keysOf_zero].
Qed.

(** A function stored under two keys gets a global grant twice. *)
Example attachPermissions_shared_function :
  keysOf (this sharedFunctionState) 42%nat = 2%nat
  ∧ grantsOf (snd (attachPermissions 7%nat sharedFunctionState)) 42%nat
    = [7; 7]%nat.
Proof. split; vm_compute; reflexivity. Qed.

(** ** What the registries keep true *)

Lemma resolverKeyShape_normalized key typeName fieldName :
  split SPACE (normalizeResolverKey key) = [typeName; fieldName] →
  fieldName ≠ [] →
  resolverKeyShape (normalizeResolverKey key).
Proof.
  intros Hsplit Hf. split.
  - rewrite !normalizeResolverKey_collapse. apply collapse_collapse.
  - by exists typeName, fieldName.
Qed.

Lemma dom_insert_mono `{Countable K} {V W} (m1 : gmap K V) (m2 : gmap K W) k v w :
  dom m1 ⊆ dom m2 → dom (<[k := v]> m1) ⊆ dom (<[k := w]> m2).
Proof.
  intros Hsub i. rewrite !elem_of_dom.
  destruct (decide (k = i)) as [->|Hne].
  - rewrite !lookup_insert_eq. eauto.
  - rewrite !lookup_insert_ne by done. rewrite <- !elem_of_dom. apply Hsub.
Qed.

Lemma dom_insert_mono_r `{Countable K} {V W} (m1 : gmap K V) (m2 : gmap K W) k w :
  dom m1 ⊆ dom m2 → dom m1 ⊆ dom (<[k := w]> m2).
Proof. intros Hsub. etrans; [exact Hsub | apply dom_insert_grows]. Qed.

Lemma elem_of_dom_insert `{Countable K} {V} (m : gmap K V) k v i :
  i ∈ dom (<[k := v]> m) → i = k ∨ i ∈ dom m.
Proof.
  rewrite !elem_of_dom. destruct (decide (k = i)) as [->|Hne]; [by left|].
  rewrite lookup_insert_ne by done. by right.
Qed.

Lemma addDataSource_consistent {World} (P : Provider World) scope dsKey dsValue
    (st : State World) r st' :
  addDataSource P scope dsKey dsValue st = (r, st') →
  registriesConsistent (this st) → registriesConsistent (this st').
Proof.
  intros H (Hfd & Hri & Hshape).
  pose proof (addDataSource_spec P scope dsKey dsValue st) as Hs.
  destruct r as [lambda|e].
  - eapply wp_normal in Hs; [|exact H].
    destruct Hs as (_ & (Hk & Hr & _) & [d Hd] & Hfn).
    split; [|split].
    + rewrite Hd, Hfn.
      destruct lambda; [by apply dom_insert_mono | by apply dom_insert_mono_r].
    + by rewrite Hk, Hr.
    + by rewrite Hk.
  - eapply wp_thrown in Hs; [|exact H]. destruct Hs as (_ & -> & _). done.
Qed.

Lemma addResolver_consistent {World} (P : Provider World) scope key resValue
    (st : State World) r st' :
  addResolver P scope key resValue st = (r, st') →
  registriesConsistent (this st) → registriesConsistent (this st').
Proof.
  intros H (Hfd & Hri & Hshape). unfold addResolver in H.
  destruct (split SPACE (normalizeResolverKey key)) as [|t [|f [|x l]]] eqn:Hsplit;
    [| |destruct f as [|c f]|].
  1,2,3,5: by injection H as <- <-.
  assert (Hnew : resolverKeyShape (normalizeResolverKey key))
    by (by eapply resolverKeyShape_normalized).
  pose proof (bindResolver_spec P scope (normalizeResolverKey key) t (c :: f)
                resValue st) as Hs.
  destruct r as [lambda|e].
  - eapply wp_normal in Hs; [|exact H].
    destruct Hs as (_ & _ & k & res & Hk & Hr & Hl).
    split; [|split].
    + destruct lambda as [fn|].
      * destruct Hl as (_ & -> & d & ->). by apply dom_insert_mono.
      * destruct Hl as [-> ->]. done.
    + rewrite Hk, Hr. by apply dom_insert_mono.
    + intros k'. rewrite Hk. intros [->|?]%elem_of_dom_insert; auto.
  - eapply wp_thrown in Hs; [|exact H].
    destruct Hs as (_ & _ & _ & Hr & [->|(_ & k & Hk & Hcase)]); [done|].
    split; [|split].
    + destruct Hcase as [[-> ->]|(fn & d & _ & -> & ->)]; [done|].
      by apply dom_insert_mono.
    + rewrite Hk, Hr. by apply dom_insert_mono_r.
    + intros k'. rewrite Hk. intros [->|?]%elem_of_dom_insert; auto.
Qed.

Lemma wp_consistent_entry {World} (m : M World (option Fn)) (st : State World) :
  (∀ r st', m st = (r, st') →
     registriesConsistent (this st) → registriesConsistent (this st')) →
  registriesConsistent (this st) →
  wp (fn <- m ;; attachExisting fn) st
    (λ _ st', registriesConsistent (this st'))
    (λ _ st', registriesConsistent (this st')).
Proof.
  intros Hm Hinv. apply wp_intro.
  - intros [] st' H. apply bind_attachExisting in H as (lambda & st1 & H1 & -> & _).
    by eapply Hm.
  - intros e st' H. apply bind_attachExisting in H. by eapply Hm.
Qed.

Lemma call_consistent {World} (P : Provider World) c (st : State World) :
  registriesConsistent (this st) →
  registriesConsistent (this (snd (call P c st))).
Proof.
  intros Hinv. destruct c as [p|scope l|scope l]; simpl.
  - destruct (forEach_grant p (map snd (map_to_list (functionsByDsKey (this st)))) st)
      as (st1 & Hrun & Hthis & _).
    unfold attachPermissions, bind, getThis. simpl. rewrite Hrun. simpl.
    rewrite Hthis. exact Hinv.
  - pose proof (wp_forEach (λ st', registriesConsistent (this st')) l
                  (λ entry, fn <- addDataSource P scope (fst entry) (snd entry) ;;
                            attachExisting fn)
                  st (λ _ st', registriesConsistent (this st')) Hinv) as Hwp.
    unfold addDataSources, wp in *.
    destruct (forEach l _ st) as [[[]|e] st'] eqn:Hrun; simpl; apply Hwp;
      intros x st1 _ H1; apply wp_consistent_entry; try done;
      intros r st2; apply addDataSource_consistent.
  - pose proof (wp_forEach (λ st', registriesConsistent (this st')) l
                  (λ entry, fn <- addResolver P scope (fst entry) (snd entry) ;;
                            attachExisting fn)
                  st (λ _ st', registriesConsistent (this st')) Hinv) as Hwp.
    unfold addResolvers, wp in *.
    destruct (forEach l _ st) as [[[]|e] st'] eqn:Hrun; simpl; apply Hwp;
      intros x st1 _ H1; apply wp_consistent_entry; try done;
      intros r st2; apply addResolver_consistent.
Qed.

Lemma newAppSyncApi_consistent {World} (P : Provider World) self props w r
    (st : State World) :
  newAppSyncApi P self props w = (r, st) → registriesConsistent (this st).
Proof.
  unfold newAppSyncApi, construct. intros H.
  set (I := λ st' : State World, registriesConsistent (this st')).
  assert (Hempty : I {| this := emptyApi props; world := w; attached := ∅ |}).
  { split; [done|]. split; [done|]. intros k Hk. simpl in Hk.
    rewrite dom_empty_L in Hk. by apply elem_of_empty in Hk. }
  assert (Hds : ∀ l st1, I st1 →
            wp (forEach l (λ entry : jsstring * DataSourceValue,
                  addDataSource P self (fst entry) (snd entry) ;;; ret tt)) st1
               (λ _ st2, I st2) (λ _ st2, I st2)).
  { intros l st1 HI. apply wp_forEach; [done|].
    intros x st2 _ HI2. apply wp_bind. apply wp_intro.
    - intros lambda st3 H3. apply wp_ret. by eapply addDataSource_consistent.
    - intros e st3 H3. by eapply addDataSource_consistent. }
  assert (Hres : ∀ l st1, I st1 →
            wp (forEach l (λ entry : jsstring * ResolverValue,
                  addResolver P self (fst entry) (snd entry) ;;; ret tt)) st1
               (λ _ st2, I st2) (λ _ st2, I st2)).
  { intros l st1 HI. apply wp_forEach; [done|].
    intros x st2 _ HI2. apply wp_bind. apply wp_intro.
    - intros lambda st3 H3. apply wp_ret. by eapply addResolver_consistent.
    - intros e st3 H3. by eapply addResolver_consistent. }
  assert (Hwp : wp (construct P self props)
                  {| this := emptyApi props; world := w; attached := ∅ |}
                  (λ _ st', I st') (λ _ st', I st')).
  { unfold construct. apply wp_bind.
    eapply wp_mono with (N := λ _ st1, I st1) (T := λ _ st1, I st1);
      [destruct (props_dataSources props); [by apply Hds | by apply wp_ret]| |done].
    intros [] st1 HI1. simpl.
    destruct (props_resolvers props); [by apply Hres | by apply wp_ret]. }
  destruct r; [eapply wp_normal in Hwp | eapply wp_thrown in Hwp]; eauto.
Qed.

Lemma attachPermissionsToDataSource_effect_this {World} key p (st : State World)
    r st' :
  attachPermissionsToDataSource key p st = (r, st') → this st' = this st.
Proof.
  unfold attachPermissionsToDataSource, bind, getThis. simpl.
  destruct (getFunction (this st) key); by intros [= <- <-].
Qed.

Lemma perform_consistent {World} (P : Provider World) op (st : State World) :
  registriesConsistent (this st) →
  registriesConsistent (this (snd (perform P op st))).
Proof.
  intros Hinv. destruct op as [c|key p]; simpl; [by apply call_consistent|].
  destruct (attachPermissionsToDataSource key p st) as [r st'] eqn:H.
  apply attachPermissionsToDataSource_effect_this in H. simpl. by rewrite H.
Qed.

Lemma performAll_consistent {World} (P : Provider World) ops (st : State World) :
  registriesConsistent (this st) →
  registriesConsistent (this (performAll P ops st)).
Proof.
  unfold performAll. revert st.
  induction ops as [|op ops IH]; intros st Hinv; simpl; [done|].
  apply IH. by apply perform_consistent.
Qed.

(** X9. On an object made by the constructor, whether it returned or threw,
    and after any public calls, each of which may have thrown: every key of
    [functionsByDsKey] is a key of [dataSourcesByDsKey], every key of
    [resolversByResKey] is a key of [dsKeysByResKey], and every key of the
    index is normalized and made of a type name and a non-empty field name.
    So where [getFunction] finds a function [getDataSource] finds a data
    source, and where [getResolver] finds a resolver the index has the
    data-source key of the resolver. *)
Theorem registries_stay_consistent {World} (P : Provider World) (self : Scope)
    (props : AppSyncApiProps) (w : World) (r : Completion unit)
    (st0 : State World) (ops : list Operation) :
  newAppSyncApi P self props w = (r, st0) →
  registriesConsistent (this (performAll P ops st0))
  ∧ (∀ key, (∃ fn, getFunction (this (performAll P ops st0)) key = Own fn) →
       ∃ dataSource, getDataSource (this (performAll P ops st0)) key = Own dataSource)
  ∧ (∀ key, getFunction (this (performAll P ops st0)) key ≠ Undefined →
       getDataSource (this (performAll P ops st0)) key ≠ Undefined)
  ∧ (∀ key, (∃ resolver, getResolver (this (performAll P ops st0)) key = Own resolver) →
       is_Some (dsKeysByResKey (this (performAll P ops st0))
                !! normalizeResolverKey key)).
Proof.
  intros Hnew.
  assert (Hinv : registriesConsistent (this (performAll P ops st0))).
  { apply performAll_consistent. by eapply newAppSyncApi_consistent. }
  split; [done|]. destruct Hinv as (Hfd & Hri & _).
  set (a := this (performAll P ops st0)) in *.
  assert (Hown : ∀ k fn, getProperty (functionsByDsKey a) k = Own fn →
                         ∃ d, getProperty (dataSourcesByDsKey a) k = Own d).
  { intros k fn Hk%getProperty_Own_iff.
    assert (Hin : k ∈ dom (dataSourcesByDsKey a)).
    { apply Hfd, elem_of_dom. eauto. }
    apply elem_of_dom in Hin as [d Hd]. exists d. by apply getProperty_own. }
  assert (Hdef : ∀ k, getProperty (functionsByDsKey a) k ≠ Undefined →
                      getProperty (dataSourcesByDsKey a) k ≠ Undefined).
  { intros k Hk Hu. apply getProperty_Undefined_iff in Hu as [Hd Hp].
    apply Hk, getProperty_Undefined_iff. split; [|done].
    apply not_elem_of_dom. intros Hin. apply Hfd in Hin.
    by apply not_elem_of_dom in Hd. }
  split; [|split].
  - intros key [fn Hfn]. unfold getFunction, getDataSource in *.
    destruct (getProperty (functionsByDsKey a) key) as [|fn'|name] eqn:H1.
    + destruct (getProperty (dataSourcesByDsKey a) key) as [|d|name] eqn:H2; [|eauto|].
      * by eapply Hown.
      * apply getProperty_Undefined_iff in H1 as [_ H1].
        apply getProperty_Inherited_iff in H2 as (_ & H2 & _). done.
    + destruct (Hown _ _ H1) as [d ->]. eauto.
    + done.
  - intros key Hfn. unfold getFunction, getDataSource in *.
    destruct (getProperty (functionsByDsKey a) key) as [|fn'|name] eqn:H1.
    + destruct (getProperty (dataSourcesByDsKey a) key) as [|d|name] eqn:H2;
        [by apply Hdef | done | done].
    + by destruct (Hown _ _ H1) as [d ->].
    + apply getProperty_Inherited_iff in H1 as (_ & H1 & _).
      intros Hu. destruct (getProperty (dataSourcesByDsKey a) key) eqn:H2; try done.
      by apply getProperty_Undefined_iff in H2 as [_ H2].
  - intros key [res Hsome%getProperty_Own_iff].
    apply elem_of_dom, Hri, elem_of_dom. done.
Qed.

Lemma registries_stay_consistent_witness :
  registriesConsistent
    (this (performAll treeProvider
             [OpCall (CallAddResolvers 0%nat collidingBatch);
              OpAttachPermissionsToDataSource (js "Query getNote") 7%nat;
              OpCall (CallAttachPermissions 8%nat)]
             twoSourcesState)).
Proof.
  apply (registries_stay_consistent treeProvider 0%nat twoSourcesProps templateFiles
           (Normal tt) twoSourcesState).
  vm_compute. reflexivity.
Defined.

(** ** The metadata *)

Lemma map_fmap {A B} (f : A → B) (l : list A) : map f l = f <$> l.
Proof. induction l as [|x l IH]; simpl; [done|]. by rewrite IH. Qed.

Lemma elem_of_getConstructMetadata a name fn :
  (name, fn) ∈ getConstructMetadata a
  ↔ name ∈ dom (dataSourcesByDsKey a) ∧ fn = getProperty (functionsByDsKey a) name.
Proof.
  unfold getConstructMetadata. rewrite map_fmap, list_elem_of_fmap. split.
  - intros ([k d] & [= -> ->] & Hin). apply elem_of_map_to_list in Hin.
    split; [|done]. apply elem_of_dom. eauto.
  - intros [[d Hd]%elem_of_dom ->]. exists (name, d). split; [done|].
    by apply elem_of_map_to_list.
Qed.

(** X10. The metadata lists the keys of the data-source registry, each once
    and with the function stored under it, or none; and on an object made by
    the constructor, after any public calls, each of which may have thrown,
    every function of the registry is listed under its key. *)
Theorem getConstructMetadata_lists_every_function {World} (P : Provider World)
    (self : Scope) (props : AppSyncApiProps) (w : World) (r : Completion unit)
    (st0 : State World) (ops : list Operation) :
  newAppSyncApi P self props w = (r, st0) →
  (∀ name fn,
     (name, fn) ∈ getConstructMetadata (this (performAll P ops st0))
     ↔ name ∈ dom (dataSourcesByDsKey (this (performAll P ops st0)))
       ∧ fn = getProperty (functionsByDsKey (this (performAll P ops st0))) name)
  ∧ NoDup (map fst (getConstructMetadata (this (performAll P ops st0))))
  ∧ (∀ k fn,
       functionsByDsKey (this (performAll P ops st0)) !! k = Some fn →
       (k, Own fn) ∈ getConstructMetadata (this (performAll P ops st0))).
Proof.
  intros Hnew.
  assert (Hinv : registriesConsistent (this (performAll P ops st0))).
  { apply performAll_consistent. by eapply newAppSyncApi_consistent. }
  set (a := this (performAll P ops st0)) in *.
  split; [apply elem_of_getConstructMetadata|]. split.
  - unfold getConstructMetadata. rewrite !map_fmap, <- list_fmap_compose.
    apply (NoDup_fst_map_to_list (dataSourcesByDsKey a)).
  - intros k fn Hk. apply elem_of_getConstructMetadata.
    split; [|by rewrite (getProperty_own _ _ _ Hk)].
    destruct Hinv as (Hfd & _). apply Hfd, elem_of_dom. eauto.
Qed.

Lemma getConstructMetadata_lists_every_function_witness :
  (js "billingDS", Own 3%nat)
  ∈ getConstructMetadata
      (this (performAll treeProvider (map OpCall grantCalls) notesState)).
Proof.
  destruct (getConstructMetadata_lists_every_function treeProvider 0%nat notesProps
              templateFiles (Normal tt) notesState
              (map OpCall grantCalls)) as (_ & _ & H);
    [vm_compute; reflexivity|].
  apply H. vm_compute. reflexivity.
Defined.

(** ** The constructor *)

Lemma addResolver_registered_string {World} (P : Provider World) scope key s
    (st : State World) lambda st' :
  addResolver P scope key (RVInline (FDHandler s)) st = (Normal lambda, st') →
  s ∈ dom (dataSourcesByDsKey (this st)) →
  dsKeysByResKey (this st') !! normalizeResolverKey key = Some s.
Proof.
  intros H Hin.
  destruct (addResolver_writes P scope key _ st lambda st' H)
    as (t & f & k & res & Hsplit & Hf & _).
  rewrite (addResolver_valid_key P scope key t f) in H by done.
  pose proof (bindResolver_function_cases P scope (normalizeResolverKey key) t f
                (RVInline (FDHandler s)) st) as Hs.
  eapply wp_normal in Hs; [|exact H]. destruct Hs as [Hiff Hnone].
  rewrite registeredKey_string in Hiff, Hnone by done.
  destruct Hnone as (k' & Hk' & [[= ->]|Hds]); [apply Hiff; eauto|done|done].
Qed.

Lemma constructResolvers_frame {World} (P : Provider World) self
    (rs : list (jsstring * ResolverValue)) (st st' : State World) rk :
  forEach rs (λ entry, addResolver P self (fst entry) (snd entry) ;;; ret tt) st
  = (Normal tt, st') →
  dom (dataSourcesByDsKey (this st)) ⊆ dom (dataSourcesByDsKey (this st'))
  ∧ (rk ∉ map (λ e, normalizeResolverKey (fst e)) rs →
     dsKeysByResKey (this st') !! rk = dsKeysByResKey (this st) !! rk).
Proof.
  revert st; induction rs as [|x xs IH]; intros st H; simpl in H.
  - by injection H as <-.
  - unfold bind at 1 in H. unfold bind at 1 in H.
    destruct (addResolver P self (fst x) (snd x) st) as [[lambda|e] st1] eqn:Hx;
      [|done].
    simpl in H. destruct (IH _ H) as [Hgrow Hframe].
    pose proof (addResolver_outcome P self _ _ _ _ _ Hx) as (_ & _ & Hg & _).
    destruct Hg as (_ & Hds & _).
    apply addResolver_writes in Hx as (t & f & k & res & _ & _ & Hk & _).
    split; [by etrans|].
    intros Hnot. simpl in Hnot. apply not_elem_of_cons in Hnot as [Hne Hnot].
    rewrite (Hframe Hnot), Hk. by rewrite lookup_insert_ne.
Qed.

Lemma constructResolvers_index {World} (P : Provider World) self
    (rs : list (jsstring * ResolverValue)) (st st' : State World) key s :
  forEach rs (λ entry, addResolver P self (fst entry) (snd entry) ;;; ret tt) st
  = (Normal tt, st') →
  s ∈ dom (dataSourcesByDsKey (this st)) →
  (key, RVInline (FDHandler s)) ∈ rs →
  NoDup (map (λ e, normalizeResolverKey (fst e)) rs) →
  dsKeysByResKey (this st') !! normalizeResolverKey key = Some s.
Proof.
  revert st; induction rs as [|x xs IH]; intros st H Hin Hel Hnd.
  - by apply elem_of_nil in Hel.
  - simpl in H. unfold bind at 1 in H. unfold bind at 1 in H.
    destruct (addResolver P self (fst x) (snd x) st) as [[lambda|e] st1] eqn:Hx;
      [|done].
    simpl in H. simpl in Hnd. apply NoDup_cons in Hnd as [Hnot Hnd].
    apply elem_of_cons in Hel as [<-|Hel].
    + simpl in Hx, Hnot.
      destruct (constructResolvers_frame P self xs st1 st' (normalizeResolverKey key) H)
        as [_ Hframe].
      rewrite (Hframe Hnot). by eapply addResolver_registered_string.
    + eapply IH; try done.
      pose proof (addResolver_outcome P self _ _ _ _ _ Hx) as (_ & _ & Hg & _).
      destruct Hg as (_ & Hds & _). by apply Hds.
Qed.

Lemma constructDataSources_keys {World} (P : Provider World) self
    (dss : list (jsstring * DataSourceValue)) (st st' : State World) :
  forEach dss (λ entry, addDataSource P self (fst entry) (snd entry) ;;; ret tt) st
  = (Normal tt, st') →
  ∀ k, k ∈ map fst dss → k ∈ dom (dataSourcesByDsKey (this st')).
Proof.
  revert st; induction dss as [|x xs IH]; intros st H k Hk; simpl in *.
  - by apply elem_of_nil in Hk.
  - unfold bind at 1 in H. unfold bind at 1 in H.
    destruct (addDataSource P self (fst x) (snd x) st) as [[lambda|e] st1] eqn:Hx;
      [|done].
    simpl in H. apply elem_of_cons in Hk as [->|Hk]; [|by eapply IH].
    apply addDataSource_outcome in Hx as (_ & _ & _ & Hin & _).
    assert (Hgrow : dom (dataSourcesByDsKey (this st1))
                    ⊆ dom (dataSourcesByDsKey (this st'))).
    { clear -H. revert st1 H. induction xs as [|y ys IHy]; intros st1 H; simpl in H.
      - by injection H as <-.
      - unfold bind at 1 in H. unfold bind at 1 in H.
        destruct (addDataSource P self (fst y) (snd y) st1) as [[l|e] st2] eqn:Hy;
          [|done].
        simpl in H.
        apply addDataSource_outcome in Hy as (_ & _ & (_ & Hds & _) & _).
        etrans; [exact Hds | by apply IHy]. }
    by apply Hgrow.
Qed.

(** X11. The constructor registers the data sources of the props before the
    resolvers, so that a resolver of the props may name a data source of the
    same props: when it returns, and no two resolver keys of the props
    normalize to the same key, such a resolver is indexed under the key of
    the data source it names, which is in the registry.  The constructor
    hands no grant to any function and retains none. *)
Theorem constructor_binds_declared_dataSources {World} (P : Provider World)
    (self : Scope) (props : AppSyncApiProps) (w : World) (st : State World)
    (dataSources : list (jsstring * DataSourceValue))
    (resolvers : list (jsstring * ResolverValue)) (key s : jsstring) :
  props_dataSources props = Some dataSources →
  props_resolvers props = Some resolvers →
  newAppSyncApi P self props w = (Normal tt, st) →
  (key, RVInline (FDHandler s)) ∈ resolvers →
  s ∈ map fst dataSources →
  NoDup (map (λ e, normalizeResolverKey (fst e)) resolvers) →
  dsKeysByResKey (this st) !! normalizeResolverKey key = Some s
  ∧ is_Some (dataSourcesByDsKey (this st) !! s)
  ∧ attached st = ∅
  ∧ permissionsAttachedForAllFunctions (this st) = [].
Proof.
  intros Hds Hrs Hnew Hel Hs Hnd.
  pose proof (construct_spec P self props
                {| this := emptyApi props; world := w; attached := ∅ |}) as Hc.
  unfold newAppSyncApi in Hnew. eapply wp_normal in Hc; [|exact Hnew].
  destruct Hc as [Ha HR]. simpl in Ha, HR.
  unfold construct in Hnew. rewrite Hds, Hrs in Hnew. unfold bind at 1 in Hnew.
  destruct (forEach dataSources _ _) as [[[]|e] st1] eqn:H1; [|done].
  pose proof (constructDataSources_keys P self dataSources _ st1 H1 s Hs) as Hin.
  split; [by eapply constructResolvers_index|].
  split; [|done].
  apply elem_of_dom.
  destruct (constructResolvers_frame P self resolvers st1 st (normalizeResolverKey key)
              Hnew) as [Hgrow _].
  by apply Hgrow.
Qed.

Lemma constructor_binds_declared_dataSources_witness :
  dsKeysByResKey (this notesResolversState) !! normalizeResolverKey (js "Query    listNotes")
  = Some (js "notesDS")
  ∧ is_Some (dataSourcesByDsKey (this notesResolversState) !! js "notesDS")
  ∧ attached notesResolversState = ∅
  ∧ permissionsAttachedForAllFunctions (this notesResolversState) = [].
Proof.
  apply (constructor_binds_declared_dataSources treeProvider 0%nat notesResolversProps
           templateFiles notesResolversState
           [(js "notesDS", DSInline (handler "src/notes.main"))]
           [(js "Query    listNotes", RVInline (handler "notesDS"));
            (js "Mutation createNote", RVInline (handler "notesDS"))]).
  - reflexivity.
  - reflexivity.
  - vm_compute. reflexivity.
  - left.
  - left.
  - apply (bool_decide_unpack _). vm_compute. exact I.
Defined.

(** ** What a batch grants *)

Lemma concat_replicate_snoc {A} n (l : list A) :
  concat (replicate n l) ++ l = concat (replicate (S n) l).
Proof.
  induction n as [|n IH]; simpl in *; [by rewrite app_nil_r|].
  by rewrite <- app_assoc, IH.
Qed.

Lemma wp_replay_entry {World} (m : M World (option Fn)) (st0 st : State World) :
  (∀ r st', m st = (r, st') →
     attached st' = attached st ∧ sameSettings (this st) (this st')) →
  (permissionsAttachedForAllFunctions (this st)
   = permissionsAttachedForAllFunctions (this st0)
   ∧ ∀ g, ∃ n, grantsOf st g
               = grantsOf st0 g
                 ++ concat (replicate n (permissionsAttachedForAllFunctions (this st0)))) →
  wp (fn <- m ;; attachExisting fn) st
    (λ _ st', permissionsAttachedForAllFunctions (this st')
              = permissionsAttachedForAllFunctions (this st0)
              ∧ ∀ g, ∃ n, grantsOf st' g
                          = grantsOf st0 g
                            ++ concat (replicate n
                                 (permissionsAttachedForAllFunctions (this st0))))
    (λ _ st', permissionsAttachedForAllFunctions (this st')
              = permissionsAttachedForAllFunctions (this st0)
              ∧ ∀ g, ∃ n, grantsOf st' g
                          = grantsOf st0 g
                            ++ concat (replicate n
                                 (permissionsAttachedForAllFunctions (this st0)))).
Proof.
  intros Hm [HR Hg]. apply wp_intro.
  - intros [] st' H.
    apply bind_attachExisting in H as (lambda & st1 & H1 & Hthis & _ & Hg').
    destruct (Hm _ _ H1) as [Ha [HR1 _]].
    assert (Hold : ∀ g, grantsOf st1 g = grantsOf st g)
      by (intros g; unfold grantsOf; by rewrite Ha).
    split; [by rewrite Hthis, HR1|].
    intros g. rewrite Hg', Hold, HR1, HR. destruct (Hg g) as [n Hn].
    destruct (decide (lambda = Some g)); [|by exists n].
    exists (S n). by rewrite Hn, <- app_assoc, concat_replicate_snoc.
  - intros e st' H. apply bind_attachExisting in H.
    destruct (Hm _ _ H) as [Ha [HR1 _]]. split; [by rewrite HR1|].
    intros g. destruct (Hg g) as [n Hn]. exists n.
    unfold grantsOf in *. by rewrite Ha.
Qed.

(** X12. Whether it returns or throws, a batch of [addDataSources] or
    [addResolvers] leaves the retained list as it was and hands to each
    function nothing but whole copies of that list, after what the function
    had; with nothing retained it hands out nothing. *)
Theorem batch_replays_retained_list {World} (P : Provider World) (scope : Scope)
    (st : State World) :
  (∀ dataSources r st',
     addDataSources P scope dataSources st = (r, st') →
     permissionsAttachedForAllFunctions (this st')
     = permissionsAttachedForAllFunctions (this st)
     ∧ (∀ fn, ∃ n, grantsOf st' fn
                   = grantsOf st fn
                     ++ concat (replicate n (permissionsAttachedForAllFunctions (this st))))
     ∧ (permissionsAttachedForAllFunctions (this st) = [] →
        ∀ fn, grantsOf st' fn = grantsOf st fn))
  ∧ (∀ resolvers r st',
       addResolvers P scope resolvers st = (r, st') →
       permissionsAttachedForAllFunctions (this st')
       = permissionsAttachedForAllFunctions (this st)
       ∧ (∀ fn, ∃ n, grantsOf st' fn
                     = grantsOf st fn
                       ++ concat (replicate n (permissionsAttachedForAllFunctions (this st))))
       ∧ (permissionsAttachedForAllFunctions (this st) = [] →
          ∀ fn, grantsOf st' fn = grantsOf st fn)).
Proof.
  set (I := λ st1 : State World,
         permissionsAttachedForAllFunctions (this st1)
         = permissionsAttachedForAllFunctions (this st)
         ∧ ∀ g, ∃ n, grantsOf st1 g
                     = grantsOf st g
                       ++ concat (replicate n
                            (permissionsAttachedForAllFunctions (this st)))).
  assert (Hnil : ∀ st' : State World, I st' →
            permissionsAttachedForAllFunctions (this st')
            = permissionsAttachedForAllFunctions (this st)
            ∧ (∀ fn, ∃ n, grantsOf st' fn
                          = grantsOf st fn
                            ++ concat (replicate n
                                 (permissionsAttachedForAllFunctions (this st))))
            ∧ (permissionsAttachedForAllFunctions (this st) = [] →
               ∀ fn, grantsOf st' fn = grantsOf st fn)).
  { intros st' [HR' Hg]. split; [done|]. split; [done|].
    intros HR fn. destruct (Hg fn) as [n ->]. rewrite HR.
    clear. induction n as [|n IH]; simpl in *; [by rewrite app_nil_r | done]. }
  assert (Hstart : I st).
  { split; [done|]. intros g. exists 0%nat. simpl. by rewrite app_nil_r. }
  split.
  - intros l r st' H. apply Hnil.
    pose proof (wp_forEach I l
                  (λ entry, fn <- addDataSource P scope (fst entry) (snd entry) ;;
                            attachExisting fn)
                  st (λ _ st2, I st2) Hstart) as Hwp.
    unfold addDataSources in H. unfold wp in Hwp. rewrite H in Hwp.
    destruct r; apply Hwp; intros x st1 _ H1; apply wp_replay_entry; try done;
      intros r' st2 Hx; apply addDataSource_outcome in Hx; tauto.
  - intros l r st' H. apply Hnil.
    pose proof (wp_forEach I l
                  (λ entry, fn <- addResolver P scope (fst entry) (snd entry) ;;
                            attachExisting fn)
                  st (λ _ st2, I st2) Hstart) as Hwp.
    unfold addResolvers in H. unfold wp in Hwp. rewrite H in Hwp.
    destruct r; apply Hwp; intros x st1 _ H1; apply wp_replay_entry; try done;
      intros r' st2 Hx; apply addResolver_outcome in Hx; tauto.
Qed.

Lemma batch_replays_retained_list_witness :
  let st := snd (attachPermissions 7%nat notesState) in
  let st' := snd (addDataSources treeProvider 0%nat
                    [(js "billingDS", DSInline (handler "src/billing.main"))] st) in
  permissionsAttachedForAllFunctions (this st')
  = permissionsAttachedForAllFunctions (this st)
  ∧ (∀ fn, ∃ n, grantsOf st' fn
                = grantsOf st fn
                  ++ concat (replicate n (permissionsAttachedForAllFunctions (this st))))
  ∧ (permissionsAttachedForAllFunctions (this st) = [] →
     ∀ fn, grantsOf st' fn = grantsOf st fn).
Proof.
  destruct (batch_replays_retained_list treeProvider 0%nat
              (snd (attachPermissions 7%nat notesState))) as [Hds _].
  apply (Hds [(js "billingDS", DSInline (handler "src/billing.main"))] (Normal tt)).
  vm_compute. reflexivity.
Defined.

(** ** Targeted grants after a registration *)

Lemma attachPermissionsToDataSource_found {World} key p (st : State World) fn :
  getFunction (this st) key = Own fn →
  attachPermissionsToDataSource key p st = (Normal tt, withGrant st fn p).
Proof.
  intros H. unfold attachPermissionsToDataSource, bind, getThis. simpl.
  by rewrite H.
Qed.

Lemma attachPermissionsToDataSource_missing {World} key p (st : State World) :
  getFunction (this st) key = Undefined →
  attachPermissionsToDataSource key p st = (Throw (FunctionDoesNotExist key), st).
Proof.
  intros H. unfold attachPermissionsToDataSource, bind, getThis. simpl.
  by rewrite H.
Qed.

(** X13. A targeted grant under the key of a data source that was added
    with a function reaches that function; under the key of a data source
    added without one it throws, unless the key led to a function before
    (the function-does-not-exist error where it led to nothing, a
    [TypeError] where it led to a property of [Object.prototype]); and under
    the key of a resolver that was added with a function of its own it
    reaches that function, unless the resolver key is itself the key of a
    function. *)
Theorem targeted_grant_after_registration {World} (P : Provider World)
    (scope : Scope) (permissions : Permissions) (st st1 : State World) :
  (∀ dsKey dsValue fn,
     addDataSource P scope dsKey dsValue st = (Normal (Some fn), st1) →
     attachPermissionsToDataSource dsKey permissions st1
     = (Normal tt, withGrant st1 fn permissions))
  ∧ (∀ dsKey dsValue,
       addDataSource P scope dsKey dsValue st = (Normal None, st1) →
       getFunction (this st) dsKey = Undefined →
       attachPermissionsToDataSource dsKey permissions st1
       = (Throw (FunctionDoesNotExist dsKey), st1))
  ∧ (∀ dsKey dsValue name,
       addDataSource P scope dsKey dsValue st = (Normal None, st1) →
       getFunction (this st) dsKey = Inherited name →
       attachPermissionsToDataSource dsKey permissions st1
       = (Throw (TypeError (js "fn.attachPermissions is not a function")), st1))
  ∧ (∀ key resValue fn,
       addResolver P scope key resValue st = (Normal (Some fn), st1) →
       functionsByDsKey (this st1) !! key = None →
       attachPermissionsToDataSource key permissions st1
       = (Normal tt, withGrant st1 fn permissions)).
Proof.
  split; [|split; [|split]].
  - intros dsKey dsValue fn H. apply attachPermissionsToDataSource_found.
    pose proof (addDataSource_spec P scope dsKey dsValue st) as Hs.
    eapply wp_normal in Hs; [|exact H]. destruct Hs as (_ & _ & _ & Hfn).
    unfold getFunction, getProperty. by rewrite Hfn, lookup_insert_eq.
  - intros dsKey dsValue H Hnone. apply attachPermissionsToDataSource_missing.
    pose proof (addDataSource_spec P scope dsKey dsValue st) as Hs.
    eapply wp_normal in Hs; [|exact H]. destruct Hs as (_ & (Hk & _) & _ & Hfn).
    unfold getFunction in *. by rewrite Hfn, Hk.
  - intros dsKey dsValue name H Hin.
    pose proof (addDataSource_spec P scope dsKey dsValue st) as Hs.
    eapply wp_normal in Hs; [|exact H]. destruct Hs as (_ & (Hk & _) & _ & Hfn).
    assert (Hin1 : getFunction (this st1) dsKey = Inherited name).
    { unfold getFunction in *. by rewrite Hfn, Hk. }
    unfold attachPermissionsToDataSource, bind, getThis. simpl. by rewrite Hin1.
  - intros key resValue fn H Hmiss. apply attachPermissionsToDataSource_found.
    apply addResolver_writes in H
      as (t & f & k & res & Hsplit & _ & Hk & _ & -> & Hfn & _).
    unfold getFunction.
    rewrite (getProperty_undefined _ _ Hmiss (resolver_key_not_inherited _ _ _ Hsplit)).
    unfold getProperty. rewrite Hk, lookup_insert_eq. simpl.
    by rewrite Hfn, lookup_insert_eq.
Qed.

Lemma targeted_grant_after_registration_witness :
  let http := snd (addDataSource treeProvider 0%nat (js "httpDS")
                     (httpDataSource "https://example.com") notesState) in
  let list := snd (addResolver treeProvider 0%nat (js "Query listNotes")
                     (RVInline (handler "src/list.main")) notesState) in
  attachPermissionsToDataSource (js "httpDS") 7%nat http
  = (Throw (FunctionDoesNotExist (js "httpDS")), http)
  ∧ attachPermissionsToDataSource (js "Query listNotes") 7%nat list
    = (Normal tt, withGrant list 3%nat 7%nat).
Proof.
  split.
  - destruct (targeted_grant_after_registration treeProvider 0%nat 7%nat notesState
                (snd (addDataSource treeProvider 0%nat (js "httpDS")
                        (httpDataSource "https://example.com") notesState)))
      as (_ & Hnone & _).
    apply (Hnone (js "httpDS") (httpDataSource "https://example.com"));
      vm_compute; reflexivity.
  - destruct (targeted_grant_after_registration treeProvider 0%nat 7%nat notesState
                (snd (addResolver treeProvider 0%nat (js "Query listNotes")
                        (RVInline (handler "src/list.main")) notesState)))
      as (_ & _ & _ & Hres).
    apply (Hres (js "Query listNotes") (RVInline (handler "src/list.main")));
      vm_compute; reflexivity.
Defined.

(** ** Global grants and what a batch registers *)







Example grantsRun_grants :
  globalGrants grantCalls = [7; 8]%nat
  ∧ getFunction (this grantsRun) (js "notesDS") = Own 1%nat
  ∧ getFunction (this grantsRun) (js "billingDS") = Own 3%nat
  ∧ getFunction (this grantsRun) (js "Query listNotes") = Own 5%nat
  ∧ grantsOf grantsRun 1%nat = [7; 8]%nat
  ∧ grantsOf grantsRun 3%nat = [7; 8]%nat
  ∧ grantsOf grantsRun 5%nat = [7; 8]%nat.
Proof. repeat split; vm_compute; reflexivity. Qed.

